(** * go-lustre: the mount-root walker and the mount handle cache of package fs

    A shallow embedding of [fs/util.go] and a verification of the properties
    its specification states about it.

    - Go strings are byte strings: [string].
    - The operating system and the Lustre client library are collaborators of
      the package; the calls the code makes to them are the fields of a
      record [World].
    - A Go function that may panic returns an [outcome]; the two recursive
      walkers take a bound on their recursion depth and return [None] when
      the bound is reached, so that a walk that never ends is a walk that
      returns [None] at every bound. *)

From Stdlib Require Import ZArith Ascii String List Lia Bool.
From stdpp Require Import base gmap strings list.

Local Open Scope Z_scope.
Local Open Scope nat_scope.

(** ** Package [strings] of the Go library *)

Module strings.

(** [strings.Split(s, sep)] for a separator of one byte: the substrings of
    [s] between the separators, at least one (the whole of [s] when the
    separator does not occur). *)
Fixpoint Split (s : string) (sep : ascii) : list string :=
  match s with
  | EmptyString => [""]
  | String c s' =>
      if Ascii.eqb c sep then "" :: Split s' sep
      else match Split s' sep with
           | [] => [String c ""]
           | x :: xs => String c x :: xs
           end
  end.

(** [strings.Join(elems, sep)]. *)
Definition Join (elems : list string) (sep : string) : string :=
  String.concat sep elems.

(** Whether the byte [c] occurs in [s]. *)
Fixpoint has (c : ascii) (s : string) : bool :=
  match s with
  | EmptyString => false
  | String c' s' => Ascii.eqb c' c || has c s'
  end.

End strings.

(** ** Package [path] of the Go library

    [Clean] is written on the elements of the path rather than on a buffer
    of bytes: the elements between slashes are read from left to right and
    kept on a stack, whose top is the head of the list. *)

Module path.

Definition slash : ascii := "/"%char.

Definition rooted (p : string) : bool :=
  match p with
  | String c _ => Ascii.eqb c slash
  | EmptyString => false
  end.

(** One element [c] read by [Clean]: an empty element and [.] are dropped;
    [..] removes the element before it when there is one to remove, is
    dropped at the root of a rooted path, and is kept otherwise; any other
    element is kept. *)
Definition clean_step (rt : bool) (st : list string) (c : string) : list string :=
  if String.eqb c "" || String.eqb c "." then st
  else if String.eqb c ".." then
    match st with
    | top :: st' =>
        if String.eqb top ".." then (if rt then st else c :: st) else st'
    | [] => if rt then [] else [c]
    end
  else c :: st.

Definition clean_elems (rt : bool) (cs : list string) (st : list string) : list string :=
  fold_left (clean_step rt) cs st.

(** The path made of the elements [out]. *)
Definition render (rt : bool) (out : list string) : string :=
  if rt then String slash (String.concat "/" out)
  else match out with
       | [] => "."
       | _ => String.concat "/" out
       end.

(** [path.Clean]. *)
Definition Clean (p : string) : string :=
  match p with
  | EmptyString => "."
  | _ => render (rooted p) (rev (clean_elems (rooted p) (strings.Split p slash) []))
  end.

(** [path.Split]: the path cut after its last slash. *)
Fixpoint Split (p : string) : string * string :=
  match p with
  | EmptyString => ("", "")
  | String c p' =>
      let '(d, f) := Split p' in
      if strings.has slash p' then (String c d, f)
      else if Ascii.eqb c slash then (String c "", p')
      else ("", String c p')
  end.

(** [path.Dir]. *)
Definition Dir (p : string) : string := Clean (fst (Split p)).

(** [p] without the slashes it ends with. *)
Fixpoint trim_slashes (p : string) : string :=
  match p with
  | EmptyString => ""
  | String c p' =>
      match trim_slashes p' with
      | EmptyString => if Ascii.eqb c slash then "" else String c ""
      | t => String c t
      end
  end.

(** [path.Base]. *)
Definition Base (p : string) : string :=
  match p with
  | EmptyString => "."
  | _ =>
      match snd (Split (trim_slashes p)) with
      | EmptyString => "/"
      | b => b
      end
  end.

(** [path.Join]: empty elements are ignored, the rest is joined with
    slashes and cleaned; the result is empty when nothing is left. *)
Definition Join (elem : list string) : string :=
  match filter (fun e => e <> "") elem with
  | [] => ""
  | es => Clean (strings.Join es "/")
  end.

End path.

(** [path/filepath.Clean] on a system whose separator is the slash. *)
Module filepath.
Definition Clean (p : string) : string := path.Clean p.
End filepath.

(** ** Values of the Go runtime and of the collaborators *)

(** A Go [error]: what the operating system or the client library reports,
    or the text made by [fmt.Errorf]. *)
Inductive error : Type :=
| SysError (op : string) (name : string) (errno : Z)
| Errorf (msg : string).

(** The pair [(value, err)] a collaborator returns, of which one part is
    meaningful. *)
Inductive result (A : Type) : Type :=
| Ok (a : A)
| Err (e : error).
Arguments Ok {A} a.
Arguments Err {A} e.

(** What a call of a Go function ends in: it returns, or it panics. *)
Inductive outcome (A : Type) : Type :=
| Ret (a : A)
| Panic (msg : string).
Arguments Ret {A} a.
Arguments Panic {A} msg.

Module syscall.
(** [syscall.Stat_t]; [Dev] is a [uint64]. *)
Record Stat_t : Type := { Dev : Z }.
End syscall.

Module os.
(** [os.FileInfo]: [Sys()] is the underlying [*syscall.Stat_t], or a value
    of another type ([None]) where the platform has none. *)
Record FileInfo : Type := { IsDir : bool; Sys : option syscall.Stat_t }.

(** [*os.File]: an open file and its descriptor. *)
Record File : Type := { fd : Z }.

(** The method [Fd] of an open file, which answers [^uintptr(0)] on a nil
    file. *)
Definition Fd (f : option File) : Z :=
  match f with
  | Some f => fd f
  | None => (-1)%Z
  end.
End os.

(** The collaborators: the operating system, the client library [llapi],
    and the declarations of this repository that [fs/util.go] uses and are
    defined elsewhere ([lustre.Fid] and its [IsDotLustre], [fs.LookupFid]).
    [os_Open] is given the number of opens made so far, so that an open may
    fail at one time and succeed at another. *)
Record World : Type := {
  Fid : Type;
  Fid_IsDotLustre : Fid -> bool;
  LookupFid : string -> result Fid;
  os_Lstat : string -> result os.FileInfo;
  os_Open : nat -> string -> result os.File;
  llapi_GetName : string -> result string;
  llapi_GetMdtIndexByFid : Z -> Fid -> result Z
}.

Module status.
(** [status.LustreClient]. *)
Record LustreClient : Type := { FsName : string; ClientID : string }.
End status.

(** ** Computations that may panic, and may run out of depth *)

Definition walk (A : Type) : Type := option (outcome A).

Definition walk_bind {A B : Type} (c : walk A) (k : A -> walk B) : walk B :=
  match c with
  | None => None
  | Some (Panic msg) => Some (Panic msg)
  | Some (Ret a) => k a
  end.

Definition walk_ret {A : Type} (a : A) : walk A := Some (Ret a).

Definition walk_lift {A : Type} (o : outcome A) : walk A := Some o.

Notation "'do' x <~ c ; k" := (walk_bind c (fun x => k))
  (at level 10, x name, c at level 100, k at level 200).

(** ** [fs/util.go]: the root walker *)

Module fs.

(** [RootDir]: the mount point of a Lustre filesystem. *)
Definition RootDir : Type := string.

Section Walker.
Variable w : World.

(** [MountID]: [elem[1]] is out of range when [id] has no ["-"]. *)
Definition MountID (mountPath : string)
  : outcome (option status.LustreClient * option error) :=
  match llapi_GetName w mountPath with
  | Err err => Ret (None, Some err)
  | Ok id =>
      let elem := strings.Split id "-"%char in
      match elem with
      | e0 :: e1 :: _ =>
          Ret (Some {| status.FsName := e0; status.ClientID := e1 |}, None)
      | [e0] => Panic "runtime error: index out of range [1] with length 1"
      | [] => Panic "runtime error: index out of range [0] with length 0"
      end
  end.

(** [RootDir.Join]. *)
Definition Join (root : RootDir) (args : list string) : string :=
  path.Join [root; path.Join args].

(** [isDotLustre]. *)
Definition isDotLustre (dir : string) : bool :=
  match os_Lstat w dir with
  | Err _ => false
  | Ok fi =>
      if os.IsDir fi then
        match LookupFid w dir with
        | Ok fid => Fid_IsDotLustre w fid
        | Err _ => false
        end
      else false
  end.

(** [rootDevice]. *)
Definition rootDevice (fi : os.FileInfo) : outcome Z :=
  match os.Sys fi with
  | Some stat => Ret (syscall.Dev stat)
  | None => Panic "no stat available"
  end.

(** [findRoot], with a bound on the depth of its recursion. *)
Fixpoint findRoot (depth : nat) (dev : Z) (pathname : string) : walk string :=
  match depth with
  | O => None
  | S depth' =>
      let parent := path.Dir pathname in
      match os_Lstat w parent with
      | Err _ => walk_ret ""
      | Ok fi =>
          do d <~ walk_lift (rootDevice fi);
          if negb (Z.eqb d dev) || String.eqb pathname "/" then
            if isDotLustre (path.Join [pathname; ".lustre"])
            then walk_ret pathname
            else walk_ret ""
          else findRoot depth' dev parent
      end
  end.

(** [MountRoot]. *)
Definition MountRoot (depth : nat) (p : string) : walk (RootDir * option error) :=
  match os_Lstat w p with
  | Err err => walk_ret ("", Some err)
  | Ok fi =>
      do dev <~ walk_lift (rootDevice fi);
      do mnt <~ findRoot depth dev p;
      if String.eqb mnt "" then
        walk_ret ("", Some (Errorf (p +:+ " not a Lustre filesystem")))
      else walk_ret (mnt, None)
  end.

(** [GetID]; an [ID] is a [RootDir]. *)
Definition GetID (depth : nat) (p : string) : walk (RootDir * option error) :=
  do r <~ MountRoot depth p;
  walk_ret r.

(** [findRelPath], with a bound on the depth of its recursion. *)
Fixpoint findRelPath (depth : nat) (dev : Z) (pathname : string)
    (relPath : list string) : walk (string * string) :=
  match depth with
  | O => None
  | S depth' =>
      let parent := path.Dir pathname in
      match os_Lstat w parent with
      | Err _ => walk_ret ("", "")
      | Ok fi =>
          do d <~ walk_lift (rootDevice fi);
          if negb (Z.eqb d dev) || String.eqb pathname "/" then
            if isDotLustre (path.Join [pathname; ".lustre"])
            then walk_ret (pathname, path.Join relPath)
            else walk_ret ("", "")
          else findRelPath depth' dev parent (path.Base pathname :: relPath)
      end
  end.

(** [MountRelPath]. *)
Definition MountRelPath (depth : nat) (pathname : string)
  : walk (RootDir * string * option error) :=
  let pathname := filepath.Clean pathname in
  match os_Lstat w pathname with
  | Err err => walk_ret ("", "", Some err)
  | Ok fi =>
      do dev <~ walk_lift (rootDevice fi);
      do r <~ findRelPath depth dev pathname [];
      let '(root, relPath) := r in
      if String.eqb root "" then
        walk_ret ("", "", Some (Errorf (pathname +:+ " not a Lustre filesystem")))
      else walk_ret (root, relPath, None)
  end.

End Walker.

(** ** [fs/util.go]: the cache of mount handles *)

(** [mountDir]; [lock] tells whether the mutex is held, [f] is nil until
    the directory is opened. *)
Record mountDir : Type := {
  path : RootDir;
  lock : bool;
  opened : bool;
  f : option os.File
}.

Definition set_lock (b : bool) (m : mountDir) : mountDir :=
  {| path := path m; lock := b; opened := opened m; f := f m |}.
Definition set_opened (b : bool) (m : mountDir) : mountDir :=
  {| path := path m; lock := lock m; opened := b; f := f m |}.
Definition set_f (file : option os.File) (m : mountDir) : mountDir :=
  {| path := path m; lock := lock m; opened := opened m; f := file |}.

(** The state of the package and of the process: the map [openMount] from
    a root to the address of its handle, the handles at their addresses,
    and the names given to [os.Open] so far, oldest first. *)
Record state : Type := {
  openMount : gmap string nat;
  heap : gmap nat mountDir;
  opens : list string
}.

(** [init]. *)
Definition init : state := {| openMount := ∅; heap := ∅; opens := [] |}.

(** A computation on the state, which returns or panics. *)
Definition M (A : Type) : Type := state -> outcome (A * state).

Definition ret {A : Type} (a : A) : M A := fun s => Ret (a, s).

Definition bind {A B : Type} (c : M A) (k : A -> M B) : M B :=
  fun s =>
    match c s with
    | Ret (a, s') => k a s'
    | Panic msg => Panic msg
    end.

Definition panic {A : Type} (msg : string) : M A := fun _ => Panic msg.

Notation "'run' x <~ c ; k" := (bind c (fun x => k))
  (at level 10, x name, c at level 100, k at level 200).
Notation "'exec' c ; k" := (bind c (fun _ => k))
  (at level 10, c at level 100, k at level 200).

(** Reading and writing the handle at an address. *)
Definition load (l : nat) : M mountDir :=
  fun s =>
    match heap s !! l with
    | Some m => Ret (m, s)
    | None => Panic "runtime error: invalid memory address or nil pointer dereference"
    end.

Definition store (l : nat) (m : mountDir) : M unit :=
  fun s => Ret (tt, {| openMount := openMount s; heap := <[l := m]> (heap s); opens := opens s |}).

(** [sync.Mutex]: with one goroutine, locking a held mutex never returns,
    which the runtime reports as a fatal error. *)
Definition Lock (l : nat) : M unit :=
  run m <~ load l;
  if lock m then panic "fatal error: all goroutines are asleep - deadlock!"
  else store l (set_lock true m).

Definition Unlock (l : nat) : M unit :=
  run m <~ load l;
  if lock m then store l (set_lock false m)
  else panic "fatal error: sync: unlock of unlocked mutex".

Section Cache.
Variable w : World.

(** The call [os.Open(name)]. *)
Definition Open (name : string) : M (result os.File) :=
  fun s =>
    Ret (os_Open w (length (opens s)) name,
         {| openMount := openMount s; heap := heap s; opens := opens s ++ [name] |}).

(** The method [open] of a handle; the deferred [Unlock] runs when the
    body returns. *)
Definition mountDir_open (m : nat) : M (option error) :=
  exec Lock m;
  run r <~ (run md <~ load m;
            if negb (opened md) then
              run o <~ Open (path md);
              match o with
              | Err err => ret (Some err)
              | Ok file =>
                  run md <~ load m;
                  exec store m (set_f (Some file) md);
                  run md <~ load m;
                  exec store m (set_opened true md);
                  ret None
              end
            else ret None);
  exec Unlock m;
  ret r.

(** The method [String] of a handle. *)
Definition mountDir_String (m : nat) : M string :=
  run md <~ load m;
  ret (path md).

(** The method [GetMdt] of a handle. *)
Definition mountDir_GetMdt (m : nat) (in_ : Fid w) : M (Z * option error) :=
  run md <~ load m;
  run err <~ (if negb (opened md) then mountDir_open m else ret None);
  match err with
  | Some err => ret (0%Z, Some err)
  | None =>
      run md <~ load m;
      match llapi_GetMdtIndexByFid w (os.Fd (f md)) in_ with
      | Err err => ret (0%Z, Some err)
      | Ok mdtIndex => ret (mdtIndex, None)
      end
  end.

(** [getOpenMount]: a new handle is allocated at an unused address. *)
Definition getOpenMount (root : RootDir) : M nat :=
  fun s =>
    match openMount s !! root with
    | Some mnt => Ret (mnt, s)
    | None =>
        let mnt := fresh (dom (heap s)) in
        Ret (mnt,
             {| openMount := <[root := mnt]> (openMount s);
                heap := <[mnt := {| path := root; lock := false; opened := false; f := None |}]> (heap s);
                opens := opens s |})
    end.

(** [GetMdt]. *)
Definition GetMdt (root : RootDir) (fid : Fid w) : M (Z * option error) :=
  run mnt <~ getOpenMount root;
  mountDir_GetMdt mnt fid.

(** One call of [GetMdt] on [root] for each identifier, in order, by the
    one goroutine. *)
Fixpoint GetMdt_calls (root : RootDir) (fids : list (Fid w))
  : M (list (Z * option error)) :=
  match fids with
  | [] => ret []
  | fid :: fids' =>
      run r <~ GetMdt root fid;
      run rs <~ GetMdt_calls root fids';
      ret (r :: rs)
  end.

End Cache.

End fs.

(** ** The elements of a path *)

Module elements.

(** An element that [Clean] keeps when it reads it. *)
Definition kept (c : string) : Prop := c <> "" /\ c <> ".".

(** An element that is a name. *)
Definition name (c : string) : Prop := c <> "" /\ c <> "." /\ c <> "..".

(** An element has no slash. *)
Definition slashless (c : string) : Prop := strings.has path.slash c = false.

(** An element of a relative suffix. *)
Definition elem (c : string) : Prop := c <> "" /\ slashless c.

(** The stack of [Clean] when it has read [p]. *)
Definition elems (p : string) : list string :=
  path.clean_elems (path.rooted p) (strings.Split p path.slash) [].

(** [q] is ["/"], or is not empty and does not end with a slash. *)
Definition clean_form (q : string) : Prop := q = "/" \/ snd (path.Split q) <> "".

(** The bytes of the elements [cs], and a slash for each. *)
Definition weight (cs : list string) : nat :=
  list_sum (map (fun c => S (String.length c)) cs).

(** The depth of [p]: the number of its elements, the empty elements
    counted. *)
Definition depth_of (p : string) : nat := length (strings.Split p path.slash).

Ltac step_cases :=
  unfold path.clean_step;
  repeat match goal with
    | |- context [String.eqb ?a ?b] => destruct (String.eqb_spec a b); subst; simpl
    end.

End elements.

(** ** The walk, step by step

    What the two walkers do is read off the file system one directory at a
    time; these definitions name the steps. *)

Module walker.

Section Steps.
Variable w : World.

(** The walker at [p] goes on to the parent of [p]: the parent is
    stat-able, its device is [dev], and [p] is not ["/"]. *)
Definition inside (dev : Z) (p : string) : bool :=
  match os_Lstat w (path.Dir p) with
  | Ok fi =>
      match os.Sys fi with
      | Some stat => Z.eqb (syscall.Dev stat) dev && negb (String.eqb p "/")
      | None => false
      end
  | Err _ => false
  end.

(** The walker at [p] tests the boundary: the parent is stat-able, and
    its device is not [dev] or [p] is ["/"]. *)
Definition boundary (dev : Z) (p : string) : bool :=
  match os_Lstat w (path.Dir p) with
  | Ok fi =>
      match os.Sys fi with
      | Some stat => negb (Z.eqb (syscall.Dev stat) dev) || String.eqb p "/"
      | None => false
      end
  | Err _ => false
  end.

(** The parent of [p] is not stat-able. *)
Definition parent_fails (p : string) : bool :=
  match os_Lstat w (path.Dir p) with
  | Ok _ => false
  | Err _ => true
  end.

(** The [n]th ancestor of [p]. *)
Fixpoint ancestor (n : nat) (p : string) : string :=
  match n with
  | O => p
  | S n' => ancestor n' (path.Dir p)
  end.

(** The walker goes on [n] times from [p]. *)
Fixpoint climbs (dev : Z) (n : nat) (p : string) : bool :=
  match n with
  | O => true
  | S n' => inside dev p && climbs dev n' (path.Dir p)
  end.

(** The elements [findRelPath] has put before [rel] after [n] steps
    from [p]. *)
Fixpoint suffix (n : nat) (p : string) (rel : list string) : list string :=
  match n with
  | O => rel
  | S n' => suffix n' (path.Dir p) (path.Base p :: rel)
  end.

(** [p] is [n] steps below a root of the target file system: the walker
    goes on [n] times, then tests the boundary and finds the sentinel. *)
Definition on_mount (dev : Z) (n : nat) (p : string) : bool :=
  climbs dev n p
  && boundary dev (ancestor n p)
  && fs.isDotLustre w (path.Join [ancestor n p; ".lustre"]).

(** The walk from [p] never returns. *)
Definition never_returns (dev : Z) (p : string) : Prop :=
  forall depth, fs.findRoot w depth dev p = None.

(** A way for the validation of the sentinel [dir] to fail. *)
Inductive sentinel_fails (dir : string) : Prop :=
| stat_fails (e : error) :
    os_Lstat w dir = Err e -> sentinel_fails dir
| not_a_directory (fi : os.FileInfo) :
    os_Lstat w dir = Ok fi -> os.IsDir fi = false -> sentinel_fails dir
| lookup_fails (e : error) :
    LookupFid w dir = Err e -> sentinel_fails dir
| predicate_false (fid : Fid w) :
    LookupFid w dir = Ok fid -> Fid_IsDotLustre w fid = false -> sentinel_fails dir.

End Steps.


(** The error of [MountRoot] and [MountRelPath] for a path that is not on
    Lustre. *)
Definition not_lustre (p : string) : error :=
  Errorf (p +:+ " not a Lustre filesystem").

End walker.

(** ** The cache, call by call *)

Module cache.

(** Every root of [openMount] has a handle, which keeps its path and
    whose mutex is free. *)
Definition wf (s : fs.state) : Prop :=
  forall root mnt,
    fs.openMount s !! root = Some mnt ->
    exists md, fs.heap s !! mnt = Some md /\ fs.path md = root /\ fs.lock md = false.

(** The handle of [root], when it has one. *)
Definition handle (s : fs.state) (root : string) : option fs.mountDir :=
  match fs.openMount s !! root with
  | Some mnt => fs.heap s !! mnt
  | None => None
  end.

(** [root] has no handle, or one that is not opened. *)
Definition unopened (s : fs.state) (root : string) : Prop :=
  match handle s root with
  | Some md => fs.opened md = false
  | None => True
  end.

(** The handle of [root] once [file] is opened. *)
Definition opened_handle (root : string) (file : os.File) : fs.mountDir :=
  {| fs.path := root; fs.lock := false; fs.opened := true; fs.f := Some file |}.

(** What a call answers that asks the client library with [file]. *)
Definition answer (w : World) (file : option os.File) (fid : Fid w) : Z * option error :=
  match llapi_GetMdtIndexByFid w (os.Fd file) fid with
  | Ok mdtIndex => (mdtIndex, None)
  | Err err => (0%Z, Some err)
  end.

End cache.

(** ** File systems to run the code on *)

Module worlds.

Definition ENOENT (op name : string) : error := SysError op name 2.

Definition stat (dev : Z) (dir : bool) : result os.FileInfo :=
  Ok {| os.IsDir := dir; os.Sys := Some {| syscall.Dev := dev |} |}.

(** A Lustre file system mounted at [/mnt/fs], on device 2; the rest is on
    device 1. An identifier is [true] when it is that of [.lustre]. *)
Definition lustre : World := {|
  Fid := bool;
  Fid_IsDotLustre := fun fid => fid;
  LookupFid := fun p =>
    if String.eqb p "/mnt/fs/.lustre" then Ok true
    else if String.prefix "/mnt/fs" p then Ok false
    else Err (SysError "lookupfid" p 25);
  os_Lstat := fun p =>
    if existsb (String.eqb p) ["/"; "/mnt"; "/tmp"; "/tmp/unrelated"] then stat 1 true
    else if existsb (String.eqb p) ["/mnt/fs"; "/mnt/fs/.lustre"; "/mnt/fs/a"; "/mnt/fs/a/b"] then stat 2 true
    else if String.eqb p "/mnt/fs/a/b/c" then stat 2 false
    else Err (ENOENT "lstat" p);
  os_Open := fun _ p =>
    if String.eqb p "/mnt/fs" then Ok {| os.fd := 3 |} else Err (ENOENT "open" p);
  llapi_GetName := fun p =>
    if String.eqb p "/mnt/fs" then Ok "lustre-ffff88003b5d6800"
    else if String.eqb p "/mnt/odd" then Ok "lustre"
    else Err (SysError "getname" p 25);
  llapi_GetMdtIndexByFid := fun fd fid =>
    if Z.eqb fd 3 then Ok 0%Z else Err (SysError "getmdtindex" "" 9)
|}.

(** A file system in which every name is a directory on device [dev],
    and none is a sentinel. *)
Definition flat (dev : Z) : World := {|
  Fid := bool;
  Fid_IsDotLustre := fun fid => fid;
  LookupFid := fun p => Err (SysError "lookupfid" p 25);
  os_Lstat := fun p => stat dev true;
  os_Open := fun _ p => Ok {| os.fd := 3 |};
  llapi_GetName := fun p => Err (SysError "getname" p 25);
  llapi_GetMdtIndexByFid := fun fd fid => Err (SysError "getmdtindex" "" 25)
|}.

(** [lustre], where ["/mnt"] cannot be stat-ed. *)
Definition hidden_parent : World := {|
  Fid := bool;
  Fid_IsDotLustre := fun fid => fid;
  LookupFid := LookupFid lustre;
  os_Lstat := fun p =>
    if String.eqb p "/mnt" then Err (SysError "lstat" p 13) else os_Lstat lustre p;
  os_Open := os_Open lustre;
  llapi_GetName := llapi_GetName lustre;
  llapi_GetMdtIndexByFid := llapi_GetMdtIndexByFid lustre
|}.

(** A Lustre file system mounted at ["/"]. *)
Definition lustre_at_root : World := {|
  Fid := bool;
  Fid_IsDotLustre := fun fid => fid;
  LookupFid := fun p => Ok (String.eqb p "/.lustre");
  os_Lstat := fun p => stat 7 true;
  os_Open := fun _ p => Ok {| os.fd := 3 |};
  llapi_GetName := fun p => Ok "lustre-ffff88003b5d6800";
  llapi_GetMdtIndexByFid := fun fd fid => Ok 0%Z
|}.

(** A platform whose file information carries no [syscall.Stat_t]. *)
Definition no_stat : os.FileInfo := {| os.IsDir := true; os.Sys := None |}.

End worlds.

(** ** Package [strconv] of the Go library *)

From Stdlib Require DecimalString DecimalZ.

Module strconv.

(** [strconv.Itoa], which is what [%d] prints of an [int]: the decimal
    digits, after a minus sign for a negative number. *)
Definition Itoa (i : Z) : string :=
  DecimalString.NilZero.string_of_int (Z.to_int i).

(** [strconv.Atoi] on what [Itoa] prints. *)
Definition Atoi (s : string) : option Z :=
  match DecimalString.NilZero.int_of_string s with
  | Some d => Some (Z.of_int d)
  | None => None
  end.

End strconv.

(** ** [lnet/tcp.go] *)

Module net.
(** [net.IP]: a slice of bytes. *)
Definition IP : Type := list Byte.byte.
End net.

(** The collaborators of [lnet/tcp.go]: [net.ParseIP], which answers nil
    ([None]) for a text that is no address, and the verb [%q] of [fmt]. *)
Record Net : Type := {
  net_ParseIP : string -> option net.IP;
  fmt_q : string -> string
}.

Module lnet.

(** [TcpNid]; [IPAddress] is a pointer, nil in the zero value. *)
Record TcpNid : Type := {
  IPAddress : option net.IP;
  driverInstance : Z
}.

(** The method [Address]. *)
Definition Address (t : TcpNid) : option net.IP := IPAddress t.

(** The method [Driver]. *)
Definition Driver (t : TcpNid) : string := "tcp".

(** The method [LNet]: [fmt.Sprintf("%s%d", t.Driver(), t.driverInstance)]. *)
Definition LNet (t : TcpNid) : string :=
  Driver t +:+ strconv.Itoa (driverInstance t).

(** [newTcpNid]. *)
Definition newTcpNid (nw : Net) (address : string) (driverInstance : Z)
  : option TcpNid * option error :=
  match net_ParseIP nw address with
  | None => (None, Some (Errorf (fmt_q nw address +:+ " is not a valid IP address")))
  | Some ip => (Some {| IPAddress := Some ip; driverInstance := driverInstance |}, None)
  end.

End lnet.

(** ** [fs/util.go]: the accessors of a root *)

Module rootdir.

(** [RootDir.String] and [RootDir.Path]. *)
Definition String (root : fs.RootDir) : string := root.
Definition Path (root : fs.RootDir) : string := root.

(** [ID.String] and [ID.Path]; an [ID] is a [RootDir]. *)
Definition ID_String (root : fs.RootDir) : string := root.
Definition ID_Path (root : fs.RootDir) : string * option error := (root, None).

End rootdir.

(** ** The cache under calls on several roots *)

Module session.

Section Calls.
Variable w : World.

(** One call of [GetMdt] for each pair of a root and an identifier, in
    order, by the one goroutine. *)
Fixpoint GetMdt_sequence (calls : list (fs.RootDir * Fid w))
  : fs.M (list (Z * option error)) :=
  match calls with
  | [] => fs.ret []
  | (root, fid) :: calls' =>
      fs.bind (fs.GetMdt w root fid) (fun r =>
      fs.bind (GetMdt_sequence calls') (fun rs =>
      fs.ret (r :: rs)))
  end.

End Calls.

(** The opens made so far are those of the roots whose handle is opened,
    one for each. *)
Definition consistent (s : fs.state) : Prop :=
  cache.wf s
  /\ NoDup (fs.opens s)
  /\ forall root,
       root ∈ fs.opens s
       <-> exists md, cache.handle s root = Some md /\ fs.opened md = true.

(** The handles of the roots other than [root] are in [s'] what they are
    in [s]. *)
Definition frame (root : string) (s s' : fs.state) : Prop :=
  forall root', root' <> root -> cache.handle s' root' = cache.handle s root'.

End session.

(** ** More file systems *)

Module worlds_nested.

(** Lustre mounted at ["/"], on device 7, and another file system mounted
    at ["/data"], on device 9. *)
Definition nested : World := {|
  Fid := bool;
  Fid_IsDotLustre := fun fid => fid;
  LookupFid := fun p => Ok (String.eqb p "/.lustre");
  os_Lstat := fun p =>
    if String.prefix "/data" p then worlds.stat 9 true else worlds.stat 7 true;
  os_Open := fun _ p => Ok {| os.fd := 3 |};
  llapi_GetName := fun p => Ok "lustre-ffff88003b5d6800";
  llapi_GetMdtIndexByFid := fun fd fid => Ok 0%Z
|}.

(** An operating system on which the open of ["/mnt/bad"] fails and the
    client library refuses the identifier [true]. *)
Definition faulty : World := {|
  Fid := bool;
  Fid_IsDotLustre := fun fid => fid;
  LookupFid := fun p => Ok (String.eqb p "/.lustre");
  os_Lstat := fun p => worlds.stat 7 true;
  os_Open := fun _ p =>
    if String.eqb p "/mnt/bad" then Err (SysError "open" p 13) else Ok {| os.fd := 3 |};
  llapi_GetName := fun p => Ok "lustre-ffff88003b5d6800";
  llapi_GetMdtIndexByFid := fun fd fid =>
    if fid then Err (SysError "getmdtindex" "" 22) else Ok 0%Z
|}.

(** A parser that knows one address. *)
Definition one_address : Net := {|
  net_ParseIP := fun s =>
    if String.eqb s "10.0.0.1" then Some [Byte.x0a; Byte.x00; Byte.x00; Byte.x01]
    else None;
  fmt_q := fun s => String (ascii_of_nat 34) (s +:+ String (ascii_of_nat 34) "")
|}.

End worlds_nested.

(** The table of [TestClean] of package [path], and cases of [Split],
    [Dir], [Base] and [Join]. *)
Example path_Clean_table :
  map path.Clean
    [""; "abc"; "abc/def"; "a/b/c"; "."; ".."; "../.."; "../../abc"; "/abc"; "/";
     "abc/"; "abc/def/"; "a/b/c/"; "./"; "../"; "../../"; "/abc/";
     "abc//def//ghi"; "//abc"; "///abc"; "//abc//"; "abc//";
     "abc/./def"; "/./abc/def"; "abc/.";
     "abc/def/ghi/../jkl"; "abc/def/../ghi/../jkl"; "abc/def/.."; "abc/def/../..";
     "/abc/def/../.."; "abc/def/../../.."; "/abc/def/../../..";
     "abc/def/../../../ghi/jkl/../../../mno";
     "abc/./../def"; "abc//./../def"; "abc/../../././../def"]
  = ["."; "abc"; "abc/def"; "a/b/c"; "."; ".."; "../.."; "../../abc"; "/abc"; "/";
     "abc"; "abc/def"; "a/b/c"; "."; ".."; "../.."; "/abc";
     "abc/def/ghi"; "/abc"; "/abc"; "/abc"; "abc";
     "abc/def"; "/abc/def"; "abc";
     "abc/def/jkl"; "abc/jkl"; "abc"; ".";
     "/"; ".."; "/";
     "../../mno";
     "def"; "def"; "../../def"].
Proof. reflexivity. Qed.

Example path_Split_table :
  map path.Split ["a/b"; "a/b/"; "a/"; "a"; "/"; ""; "/a"]
  = [("a/", "b"); ("a/b/", ""); ("a/", ""); ("", "a"); ("/", ""); ("", ""); ("/", "a")].
Proof. reflexivity. Qed.

Example path_Dir_table :
  map path.Dir [""; "."; "/."; "/"; "////"; "/foo"; "x/"; "abc"; "abc/def"; "a/b/.x";
                "a/b/c."; "a/b/c.x"]
  = ["."; "."; "/"; "/"; "/"; "/"; "x"; "."; "abc"; "a/b"; "a/b"; "a/b"].
Proof. reflexivity. Qed.

Example path_Base_table :
  map path.Base [""; "."; "/."; "/"; "////"; "x/"; "abc"; "abc/def"; "a/b/.x"; "a/b/c."; "a/b/c.x"]
  = ["."; "."; "."; "/"; "/"; "x"; "abc"; "def"; ".x"; "c."; "c.x"].
Proof. reflexivity. Qed.

Example path_Join_table :
  map path.Join [[]; [""]; ["a"]; ["a"; "b"]; ["a"; ""]; [""; "b"]; ["/"; "a"]; ["/"; ""];
                 ["a/"; "b"]; ["a/"; ""]; [""; ""]]
  = [""; ""; "a"; "a/b"; "a"; "b"; "/a"; "/"; "a/b"; "a"; ""].
Proof. reflexivity. Qed.

(** * Proofs *)

(** ** Strings *)

Module string_facts.

Lemma append_nil_l (s : string) : "" +:+ s = s.
Proof. reflexivity. Qed.

Lemma append_cons (c : ascii) (s t : string) : String c s +:+ t = String c (s +:+ t).
Proof. reflexivity. Qed.

Lemma append_nil_r (s : string) : s +:+ "" = s.
Proof.
  induction s as [|c s IH]; [reflexivity|].
  now rewrite append_cons, IH.
Qed.

Lemma append_assoc (a b c : string) : (a +:+ b) +:+ c = a +:+ (b +:+ c).
Proof.
  induction a as [|x a IH]; [reflexivity|].
  now rewrite !append_cons, IH.
Qed.

Lemma length_append (a b : string) :
  String.length (a +:+ b) = String.length a + String.length b.
Proof.
  induction a as [|x a IH]; [reflexivity|].
  rewrite append_cons. simpl. now rewrite IH.
Qed.

Lemma has_append (c : ascii) (a b : string) :
  strings.has c (a +:+ b) = strings.has c a || strings.has c b.
Proof.
  induction a as [|x a IH]; [reflexivity|].
  rewrite append_cons. simpl. rewrite IH. now rewrite orb_assoc.
Qed.

Lemma Split_not_nil (s : string) (sep : ascii) : strings.Split s sep <> [].
Proof.
  destruct s as [|c s]; simpl; [discriminate|].
  destruct (Ascii.eqb c sep); [discriminate|].
  destruct (strings.Split s sep); discriminate.
Qed.

Lemma Split_without_sep (s : string) (sep : ascii) :
  strings.has sep s = false -> strings.Split s sep = [s].
Proof.
  induction s as [|c s IH]; simpl; [reflexivity|].
  intros H. apply orb_false_iff in H as [Hc Hs].
  rewrite Hc, (IH Hs). reflexivity.
Qed.

Lemma Split_with_sep (s : string) (sep : ascii) :
  strings.has sep s = true ->
  exists e0 e1 rest, strings.Split s sep = e0 :: e1 :: rest.
Proof.
  induction s as [|c s IH]; simpl; [discriminate|].
  intros H. destruct (Ascii.eqb c sep) eqn:Hc.
  - pose proof (Split_not_nil s sep) as Hn.
    destruct (strings.Split s sep) as [|x xs]; [congruence|]. eauto.
  - simpl in H. destruct (IH H) as (e0 & e1 & rest & ->). eauto.
Qed.

Lemma Split_app (a b : string) (sep : ascii) :
  strings.Split (a +:+ String sep b) sep = strings.Split a sep ++ strings.Split b sep.
Proof.
  induction a as [|c a IH]; [rewrite append_nil_l|rewrite append_cons]; simpl.
  - now rewrite Ascii.eqb_refl.
  - rewrite IH. destruct (Ascii.eqb c sep); [reflexivity|].
    pose proof (Split_not_nil a sep) as Hn.
    destruct (strings.Split a sep) as [|x xs]; [congruence | reflexivity].
Qed.

Lemma Split_elements (s : string) (sep : ascii) :
  Forall (fun x => strings.has sep x = false) (strings.Split s sep).
Proof.
  induction s as [|c s IH]; simpl.
  - constructor; [reflexivity | constructor].
  - destruct (Ascii.eqb c sep) eqn:Hc.
    + constructor; [reflexivity | exact IH].
    + destruct (strings.Split s sep) as [|x xs].
      * constructor; [simpl; now rewrite Hc | constructor].
      * inversion IH as [|? ? Hx Hxs]; subst.
        constructor; [simpl; now rewrite Hc, Hx | exact Hxs].
Qed.

Lemma Split_concat (cs : list string) (sep : ascii) :
  cs <> [] ->
  Forall (fun x => strings.has sep x = false) cs ->
  strings.Split (String.concat (String sep "") cs) sep = cs.
Proof.
  induction cs as [|x cs IH]; [congruence|].
  intros _ H. inversion H as [|? ? Hx Hcs]; subst.
  destruct cs as [|y cs].
  - simpl. now apply Split_without_sep.
  - change (String.concat (String sep "") (x :: y :: cs))
      with (x +:+ String sep (String.concat (String sep "") (y :: cs))).
    rewrite Split_app, (Split_without_sep x sep Hx), IH; [reflexivity | discriminate | exact Hcs].
Qed.

Lemma concat_Split (s : string) (sep : ascii) :
  String.concat (String sep "") (strings.Split s sep) = s.
Proof.
  induction s as [|c s IH]; simpl; [reflexivity|].
  destruct (Ascii.eqb_spec c sep) as [->|Hc].
  - pose proof (Split_not_nil s sep) as Hn.
    destruct (strings.Split s sep) as [|x xs]; [congruence|].
    simpl in *. now rewrite IH.
  - pose proof (Split_not_nil s sep) as Hn.
    destruct (strings.Split s sep) as [|x xs]; [congruence|].
    destruct xs as [|y ys]; simpl in *; now rewrite <- IH.
Qed.

End string_facts.

(** ** Package [path] *)

Module path_facts.
Import string_facts elements.

Lemma clean_step_skip rt st c : c = "" \/ c = "." -> path.clean_step rt st c = st.
Proof. intros [->| ->]; reflexivity. Qed.

Lemma clean_step_name rt st c : name c -> path.clean_step rt st c = c :: st.
Proof. intros (H1 & H2 & H3). step_cases; congruence. Qed.

Lemma clean_step_dotdot_name rt st c :
  kept c -> c <> ".." -> path.clean_step rt (c :: st) ".." = st.
Proof. intros [H1 H2] H3. step_cases; congruence. Qed.

Lemma clean_elems_snoc rt cs c st :
  path.clean_elems rt (cs ++ [c]) st = path.clean_step rt (path.clean_elems rt cs st) c.
Proof. unfold path.clean_elems. now rewrite fold_left_app. Qed.

Lemma clean_elems_app rt cs1 cs2 st :
  path.clean_elems rt (cs1 ++ cs2) st = path.clean_elems rt cs2 (path.clean_elems rt cs1 st).
Proof. unfold path.clean_elems. now rewrite fold_left_app. Qed.

Lemma clean_elems_cons rt c cs st :
  path.clean_elems rt (c :: cs) st = path.clean_elems rt cs (path.clean_step rt st c).
Proof. reflexivity. Qed.

(** The stack holds elements that were read or were there. *)
Lemma clean_step_Forall (P : string -> Prop) rt st c :
  Forall P st -> P c -> Forall P (path.clean_step rt st c).
Proof.
  intros Hst Hc. step_cases; auto.
  destruct st as [|top st']; [destruct rt; auto|].
  inversion Hst; subst.
  destruct (String.eqb_spec top ".."); [destruct rt|]; auto.
Qed.

Lemma clean_elems_Forall (P : string -> Prop) rt cs st :
  Forall P st -> Forall P cs -> Forall P (path.clean_elems rt cs st).
Proof.
  revert st. induction cs as [|c cs IH]; intros st Hst Hcs; [exact Hst|].
  inversion Hcs; subst. rewrite clean_elems_cons.
  apply IH; [apply clean_step_Forall|]; assumption.
Qed.

Lemma clean_step_kept rt st c : Forall kept st -> Forall kept (path.clean_step rt st c).
Proof.
  intros Hst. step_cases; auto.
  - destruct st as [|top st']; [destruct rt; auto|].
    + constructor; [split; discriminate | constructor].
    + inversion Hst; subst.
      destruct (String.eqb_spec top ".."); [destruct rt|]; auto.
      constructor; [split; discriminate | assumption].
  - constructor; [split; assumption | assumption].
Qed.

Lemma clean_elems_kept rt cs st : Forall kept st -> Forall kept (path.clean_elems rt cs st).
Proof.
  revert st. induction cs as [|c cs IH]; intros st Hst; [exact Hst|].
  rewrite clean_elems_cons. apply IH, clean_step_kept, Hst.
Qed.

(** The stack of a rooted path holds names only. *)
Lemma clean_step_name_rooted st c :
  Forall name st -> Forall name (path.clean_step true st c).
Proof.
  intros Hst. step_cases; auto.
  - destruct st as [|top st']; [auto|].
    inversion Hst; subst.
    destruct (String.eqb_spec top ".."); auto.
  - constructor; [repeat split; assumption | assumption].
Qed.

Lemma clean_elems_name_rooted cs st :
  Forall name st -> Forall name (path.clean_elems true cs st).
Proof.
  revert st. induction cs as [|c cs IH]; intros st Hst; [exact Hst|].
  rewrite clean_elems_cons. apply IH, clean_step_name_rooted, Hst.
Qed.

(** Reading names puts them on the stack. *)
Lemma clean_elems_names rt ns st :
  Forall name ns -> path.clean_elems rt (rev ns) st = ns ++ st.
Proof.
  induction ns as [|c ns IH]; intros H; [reflexivity|].
  inversion H; subst. simpl rev.
  rewrite clean_elems_snoc, IH by assumption.
  now apply clean_step_name.
Qed.

(** Reading the elements of a cleaned path that is not rooted does to a
    stack what reading the elements before cleaning does. *)
Lemma clean_elems_absorb rt cs st :
  path.clean_elems rt (rev (path.clean_elems false cs [])) st = path.clean_elems rt cs st.
Proof.
  induction cs as [|c cs IH] using rev_ind; [reflexivity|].
  rewrite !clean_elems_snoc, <- IH.
  pose proof (clean_elems_kept false cs [] (List.Forall_nil _)) as Hk.
  set (N := path.clean_elems false cs []) in *. clearbody N. clear IH.
  destruct (String.eqb_spec c "") as [->|H1]; [reflexivity|].
  destruct (String.eqb_spec c ".") as [->|H2]; [reflexivity|].
  destruct (String.eqb_spec c "..") as [->|H3].
  - destruct N as [|top N].
    + reflexivity.
    + inversion Hk as [|? ? Htop HN]; subst.
      destruct (String.eqb_spec top "..") as [->|Ht].
      * change (path.clean_step false (".." :: N) "..") with (".." :: ".." :: N).
        simpl rev. now rewrite !clean_elems_snoc.
      * rewrite (clean_step_dotdot_name false N top Htop Ht).
        simpl rev. rewrite clean_elems_snoc.
        assert (Hn : name top) by (destruct Htop; repeat split; assumption).
        rewrite (clean_step_name rt _ top Hn).
        now rewrite (clean_step_dotdot_name rt _ top Htop Ht).
  - assert (Hn : name c) by (repeat split; assumption).
    rewrite (clean_step_name false N c Hn). simpl rev.
    now rewrite clean_elems_snoc.
Qed.

Lemma concat_cons (sep x y : string) (l : list string) :
  String.concat sep (x :: y :: l) = x +:+ sep +:+ String.concat sep (y :: l).
Proof. reflexivity. Qed.

Lemma Clean_unfold p : p <> "" -> path.Clean p = path.render (path.rooted p) (rev (elems p)).
Proof. destruct p; [congruence | reflexivity]. Qed.

Lemma elems_kept p : Forall kept (elems p).
Proof. apply clean_elems_kept. constructor. Qed.

Lemma elems_slashless p : Forall slashless (elems p).
Proof. apply clean_elems_Forall; [constructor | apply Split_elements]. Qed.

Lemma elems_name p : path.rooted p = true -> Forall name (elems p).
Proof. intros H. unfold elems. rewrite H. apply clean_elems_name_rooted. constructor. Qed.

Lemma concat_not_empty c out : c <> "" -> String.concat "/" (c :: out) <> "".
Proof.
  intros Hc. destruct c as [|x c]; [congruence|].
  destruct out; [discriminate|]. rewrite concat_cons, append_cons. discriminate.
Qed.

Lemma render_not_empty rt out : Forall kept out -> path.render rt out <> "".
Proof.
  intros H. destruct rt; [discriminate|].
  destruct out as [|c out]; [discriminate|].
  inversion H as [|? ? [Hc _] _]; subst. now apply concat_not_empty.
Qed.

Lemma rooted_append a b : a <> "" -> path.rooted (a +:+ b) = path.rooted a.
Proof. destruct a; [congruence | reflexivity]. Qed.

Lemma rooted_slashless c : slashless c -> path.rooted c = false.
Proof.
  destruct c as [|x c]; [reflexivity|]. unfold slashless. simpl.
  intros H. now apply orb_false_iff in H as [H _].
Qed.

Lemma rooted_render rt out :
  Forall kept out -> Forall slashless out -> path.rooted (path.render rt out) = rt.
Proof.
  intros Hk Hs. destruct rt; [apply Ascii.eqb_refl|].
  destruct out as [|c out]; [reflexivity|].
  inversion Hk as [|? ? [Hc _] _]; inversion Hs as [|? ? Hsc _]; subst.
  unfold path.render. destruct out as [|d out].
  - now apply rooted_slashless.
  - rewrite concat_cons, rooted_append by assumption. now apply rooted_slashless.
Qed.

(** Reading the elements of a path made of [out] is reading [out]. *)
Lemma Split_render rt' rt out st :
  Forall slashless out ->
  path.clean_elems rt' (strings.Split (path.render rt out) path.slash) st
  = path.clean_elems rt' out st.
Proof.
  intros Hs. destruct out as [|c out].
  - destruct rt; reflexivity.
  - assert (Hsp : strings.Split (String.concat "/" (c :: out)) path.slash = c :: out)
      by (apply (Split_concat (c :: out) path.slash); [discriminate | exact Hs]).
    destruct rt; unfold path.render.
    + change (strings.Split (String path.slash (String.concat "/" (c :: out))) path.slash)
        with ("" :: strings.Split (String.concat "/" (c :: out)) path.slash).
      now rewrite Hsp.
    + now rewrite Hsp.
Qed.

Lemma rooted_Clean p : p <> "" -> path.rooted (path.Clean p) = path.rooted p.
Proof.
  intros Hp. rewrite Clean_unfold by assumption.
  apply rooted_render; apply Forall_rev; [apply elems_kept | apply elems_slashless].
Qed.

Lemma Clean_not_empty p : path.Clean p <> "".
Proof.
  destruct (String.eqb_spec p "") as [->|Hp]; [discriminate|].
  rewrite Clean_unfold by assumption.
  apply render_not_empty, Forall_rev, elems_kept.
Qed.

(** Cleaning leaves the elements of a path as they are. *)
Lemma elems_Clean p : p <> "" -> elems (path.Clean p) = elems p.
Proof.
  intros Hp. unfold elems at 1. rewrite rooted_Clean by assumption.
  rewrite Clean_unfold by assumption.
  rewrite Split_render by apply Forall_rev, elems_slashless.
  destruct (path.rooted p) eqn:Hr.
  - rewrite clean_elems_names by now apply elems_name. apply app_nil_r.
  - unfold elems at 1. rewrite Hr, clean_elems_absorb. unfold elems. now rewrite Hr.
Qed.

Lemma Clean_idempotent p : path.Clean (path.Clean p) = path.Clean p.
Proof.
  destruct (String.eqb_spec p "") as [->|Hp]; [reflexivity|].
  rewrite (Clean_unfold (path.Clean p)) by apply Clean_not_empty.
  rewrite rooted_Clean, elems_Clean by assumption.
  symmetry. now apply Clean_unfold.
Qed.

Lemma append_not_empty a b : a <> "" -> a +:+ b <> "".
Proof. destruct a; [congruence | discriminate]. Qed.

(** The clean form of [a/b]. *)
Lemma Clean_app a b :
  a <> "" ->
  path.Clean (a +:+ String path.slash b)
  = path.render (path.rooted a)
      (rev (path.clean_elems (path.rooted a) (strings.Split b path.slash) (elems a))).
Proof.
  intros Ha. rewrite Clean_unfold by now apply append_not_empty.
  unfold elems. rewrite rooted_append by assumption.
  now rewrite Split_app, clean_elems_app.
Qed.

(** [a/b] and [a/Clean(b)] have the same clean form, when [b] is not
    rooted. *)
Lemma Clean_app_Clean a b :
  a <> "" -> b <> "" -> path.rooted b = false ->
  path.Clean (a +:+ String path.slash (path.Clean b)) = path.Clean (a +:+ String path.slash b).
Proof.
  intros Ha Hb Hr. rewrite !Clean_app by assumption. f_equal. f_equal.
  rewrite (Clean_unfold b) by assumption.
  rewrite Split_render by apply Forall_rev, elems_slashless.
  unfold elems at 1. rewrite Hr. apply clean_elems_absorb.
Qed.

(** *** [Split], [Dir] and [Base] *)

Lemma path_Split_slashless f : slashless f -> path.Split f = ("", f).
Proof.
  induction f as [|c f IH]; [reflexivity|].
  unfold slashless. simpl. intros H. apply orb_false_iff in H as [Hc Hf].
  rewrite (IH Hf), Hf, Hc. reflexivity.
Qed.

Lemma path_Split_app a f :
  slashless f -> path.Split (a +:+ String path.slash f) = (a +:+ "/", f).
Proof.
  intros Hf. induction a as [|x a IH].
  - rewrite !append_nil_l. simpl. rewrite (path_Split_slashless f Hf), Hf. reflexivity.
  - rewrite !append_cons. simpl. rewrite IH, has_append. simpl.
    rewrite orb_true_r. reflexivity.
Qed.

Lemma path_Split_cases p :
  (slashless p /\ path.Split p = ("", p))
  \/ (exists d f, slashless f /\ p = d +:+ String path.slash f /\ path.Split p = (d +:+ "/", f)).
Proof.
  induction p as [|c p IH].
  - left. split; reflexivity.
  - destruct IH as [[Hs Hp]|(d & f & Hf & -> & Hp)].
    + destruct (Ascii.eqb_spec c path.slash) as [->|Hc].
      * right. exists "", p. repeat split; [assumption|]. now apply (path_Split_app "").
      * left. assert (Hcp : slashless (String c p)).
        { unfold slashless in *. simpl. rewrite Hs.
          now apply Ascii.eqb_neq in Hc as ->. }
        split; [assumption | now apply path_Split_slashless].
    + right. exists (String c d), f. repeat split; [assumption|].
      rewrite <- append_cons. now apply path_Split_app.
Qed.

Lemma trim_slashes_file f : f <> "" -> slashless f -> path.trim_slashes f = f.
Proof.
  induction f as [|c f IH]; [congruence|].
  intros _ H. unfold slashless in H. simpl in H. apply orb_false_iff in H as [Hc Hf].
  simpl. destruct f as [|c' f].
  - simpl. now rewrite Hc.
  - rewrite IH by (discriminate || assumption). reflexivity.
Qed.

Lemma trim_slashes_append a f :
  f <> "" -> slashless f -> path.trim_slashes (a +:+ f) = a +:+ f.
Proof.
  intros Hf Hs. induction a as [|x a IH].
  - now apply trim_slashes_file.
  - rewrite append_cons. simpl. rewrite IH.
    destruct (a +:+ f) eqn:E; [|reflexivity].
    destruct a; [rewrite append_nil_l in E; congruence | discriminate].
Qed.

Lemma Base_unfold p :
  p <> "" ->
  path.Base p = match snd (path.Split (path.trim_slashes p)) with
                | EmptyString => "/"
                | b => b
                end.
Proof. destruct p; [congruence | reflexivity]. Qed.

Lemma Base_file d f :
  f <> "" -> slashless f -> path.Split (d +:+ f) = (d, f) -> path.Base (d +:+ f) = f.
Proof.
  intros Hf Hs Hsp.
  assert (Hne : d +:+ f <> "")
    by (destruct d; [rewrite append_nil_l; assumption | discriminate]).
  rewrite Base_unfold, trim_slashes_append, Hsp by assumption.
  simpl. destruct f; [congruence | reflexivity].
Qed.

Lemma rooted_app_slash d x y :
  path.rooted (d +:+ String path.slash x) = path.rooted (d +:+ String path.slash y).
Proof. destruct d; reflexivity. Qed.

Lemma Clean_trailing_slash d : d <> "" -> path.Clean (d +:+ "/") = path.Clean d.
Proof.
  intros Hd. change "/" with (String path.slash "").
  rewrite Clean_app by assumption. now rewrite Clean_unfold.
Qed.

(** One step of the walker, read on the elements: the elements of [q] are
    those of its parent, then its base. *)
Lemma Dir_Base q :
  q <> "/" -> clean_form q ->
  q <> ""
  /\ path.Base q <> "" /\ slashless (path.Base q)
  /\ path.rooted (path.Dir q) = path.rooted q
  /\ path.clean_step (path.rooted q) (elems (path.Dir q)) (path.Base q) = elems q.
Proof.
  intros Hq [->|Hf]; [congruence|].
  destruct (path_Split_cases q) as [[Hs Hsp]|(d & f & Hs & -> & Hsp)].
  - rewrite Hsp in Hf. simpl in Hf.
    assert (Hb : path.Base q = q) by (apply (Base_file "" q); assumption).
    unfold path.Dir. rewrite Hsp, Hb. simpl fst.
    repeat split; try assumption.
    + symmetry. now apply rooted_slashless.
    + unfold elems. rewrite (Split_without_sep q path.slash Hs).
      now rewrite (rooted_slashless q Hs).
  - rewrite Hsp in Hf. simpl in Hf.
    assert (Hb : path.Base (d +:+ String path.slash f) = f).
    { change (String path.slash f) with ("/" +:+ f).
      rewrite <- append_assoc. apply Base_file; try assumption.
      rewrite append_assoc. exact Hsp. }
    unfold path.Dir. rewrite Hsp, Hb. simpl fst.
    assert (Hd : d +:+ "/" <> "") by (destruct d; discriminate).
    repeat split; try assumption.
    + destruct d; discriminate.
    + rewrite rooted_Clean by assumption. apply rooted_app_slash.
    + rewrite elems_Clean by assumption. unfold elems.
      change "/" with (String path.slash "").
      rewrite (rooted_app_slash d "" f), !Split_app, !clean_elems_app.
      now rewrite (Split_without_sep f path.slash Hs).
Qed.

Lemma concat_snoc out c :
  String.concat "/" (out ++ [c])
  = match out with [] => c | _ => String.concat "/" out +:+ String path.slash c end.
Proof.
  induction out as [|x out IH]; [reflexivity|].
  destruct out as [|y out]; [reflexivity|].
  change ((x :: y :: out) ++ [c]) with (x :: y :: (out ++ [c])).
  rewrite concat_cons. change (y :: (out ++ [c])) with ((y :: out) ++ [c]).
  rewrite IH, concat_cons. now rewrite !append_assoc.
Qed.

Lemma render_clean_form rt out :
  Forall kept out -> Forall slashless out -> clean_form (path.render rt out).
Proof.
  intros Hk Hs. destruct out as [|c out _] using rev_ind.
  - destruct rt; [left | right]; [reflexivity | discriminate].
  - right. apply Forall_app in Hk as [_ Hk]. apply Forall_app in Hs as [_ Hs].
    inversion Hk as [|? ? [Hc _] _]; inversion Hs as [|? ? Hsc _]; subst.
    unfold path.render. rewrite concat_snoc.
    destruct rt.
    + destruct out as [|x out].
      * change (snd (path.Split ("" +:+ String path.slash c)) <> "").
        rewrite path_Split_app by assumption. exact Hc.
      * change (snd (path.Split (String path.slash (String.concat "/" (x :: out))
                                 +:+ String path.slash c)) <> "").
        rewrite path_Split_app by assumption. exact Hc.
    + destruct out as [|x out].
      * change (snd (path.Split c) <> "").
        rewrite path_Split_slashless by assumption. exact Hc.
      * change (snd (path.Split (String.concat "/" (x :: out) +:+ String path.slash c)) <> "").
        rewrite path_Split_app by assumption. exact Hc.
Qed.

Lemma Clean_clean_form p : clean_form (path.Clean p).
Proof.
  destruct (String.eqb_spec p "") as [->|Hp]; [right; discriminate|].
  rewrite Clean_unfold by assumption.
  apply render_clean_form; apply Forall_rev; [apply elems_kept | apply elems_slashless].
Qed.

(** *** [Join] *)

Lemma filter_not_empty (l : list string) :
  Forall (fun c => c <> "") l -> filter (fun e => e <> "") l = l.
Proof.
  induction l as [|c l IH]; intros H; [reflexivity|].
  inversion H; subst. rewrite filter_cons_True by assumption. now rewrite IH.
Qed.

Lemma Join_not_empty l :
  l <> [] -> Forall (fun c => c <> "") l -> path.Join l = path.Clean (String.concat "/" l).
Proof.
  intros Hl H. unfold path.Join. rewrite filter_not_empty by assumption.
  destruct l; [congruence | reflexivity].
Qed.

Lemma Join_pair a b :
  a <> "" ->
  path.Join [a; b] = if String.eqb b "" then path.Clean a
                     else path.Clean (a +:+ String path.slash b).
Proof.
  intros Ha. destruct (String.eqb_spec b "") as [->|Hb].
  - unfold path.Join. rewrite filter_cons_True by assumption. reflexivity.
  - rewrite Join_not_empty; [reflexivity | discriminate | auto].
Qed.

Lemma elem_Forall_not_empty rel : Forall elem rel -> Forall (fun c => c <> "") rel.
Proof. apply List.Forall_impl. now intros c [H _]. Qed.

Lemma elem_Forall_slashless rel : Forall elem rel -> Forall slashless rel.
Proof. apply List.Forall_impl. now intros c [_ H]. Qed.

(** The clean form of [q/r1/.../rn]. *)
Lemma Clean_concat q rel :
  q <> "" -> Forall elem rel ->
  path.Clean (String.concat "/" (q :: rel))
  = path.render (path.rooted q) (rev (path.clean_elems (path.rooted q) rel (elems q))).
Proof.
  intros Hq Hrel. destruct rel as [|r rel].
  - now apply Clean_unfold.
  - change (String.concat "/" (q :: r :: rel))
      with (q +:+ String path.slash (String.concat (String path.slash "") (r :: rel))).
    rewrite Clean_app by assumption.
    rewrite (Split_concat (r :: rel) path.slash);
      [reflexivity | discriminate | now apply elem_Forall_slashless].
Qed.

(** One step of [findRelPath] keeps the path that the root and the suffix
    make. *)
Lemma joined_step q rel :
  q <> "/" -> clean_form q -> Forall elem rel ->
  path.Clean (String.concat "/" (path.Dir q :: path.Base q :: rel))
  = path.Clean (String.concat "/" (q :: rel)).
Proof.
  intros Hq Hc Hrel.
  destruct (Dir_Base q Hq Hc) as (Hne & Hb & Hbs & Hr & Hstep).
  rewrite !Clean_concat; try assumption.
  - rewrite Hr, clean_elems_cons, Hstep. reflexivity.
  - apply Clean_not_empty.
  - constructor; [split|]; assumption.
Qed.

(** What [MountRelPath] returns, joined. *)
Lemma joined_final q rel :
  q <> "" -> Forall elem rel ->
  fs.Join q [path.Join rel] = path.Clean (String.concat "/" (q :: rel)).
Proof.
  intros Hq Hrel. unfold fs.Join. destruct rel as [|r rel].
  - change (path.Join [path.Join []]) with "".
    now rewrite Join_pair.
  - assert (Hne : String.concat "/" (r :: rel) <> "")
      by (inversion Hrel as [|? ? [Hr _] _]; now apply concat_not_empty).
    assert (Hrt : path.rooted (String.concat "/" (r :: rel)) = false).
    { inversion Hrel as [|? ? [Hr Hs] _]; subst. destruct rel.
      - now apply rooted_slashless.
      - rewrite concat_cons, rooted_append by assumption. now apply rooted_slashless. }
    rewrite (Join_not_empty (r :: rel)); [|discriminate | now apply elem_Forall_not_empty].
    set (R := String.concat "/" (r :: rel)) in *.
    rewrite (Join_not_empty [path.Clean R]);
      [|discriminate | constructor; [apply Clean_not_empty | constructor]].
    change (String.concat "/" [path.Clean R]) with (path.Clean R).
    rewrite Clean_idempotent, Join_pair by assumption.
    destruct (String.eqb_spec (path.Clean R) "") as [E|_]; [now apply Clean_not_empty in E|].
    rewrite Clean_app_Clean by assumption.
    subst R. now rewrite concat_cons.
Qed.

(** *** The length of a clean path *)

Lemma weight_app a b : weight (a ++ b) = weight a + weight b.
Proof. unfold weight. now rewrite map_app, list_sum_app. Qed.

Lemma weight_rev l : weight (rev l) = weight l.
Proof.
  induction l as [|c l IH]; [reflexivity|].
  simpl rev. rewrite weight_app, IH. unfold weight. simpl. lia.
Qed.

Lemma weight_Split s sep : weight (strings.Split s sep) = S (String.length s).
Proof.
  induction s as [|c s IH]; [reflexivity|]. simpl.
  destruct (Ascii.eqb c sep).
  - change (weight ("" :: ?l)) with (1 + weight l). lia.
  - pose proof (Split_not_nil s sep) as Hn.
    destruct (strings.Split s sep) as [|x xs]; [congruence|].
    unfold weight in *. simpl in *. lia.
Qed.

Lemma weight_clean_step rt st c :
  weight (path.clean_step rt st c) <= weight st + S (String.length c).
Proof.
  step_cases; try lia.
  - destruct st as [|top st]; [destruct rt; unfold weight; simpl; lia|].
    destruct (String.eqb_spec top ".."); [destruct rt|]; unfold weight; simpl; lia.
  - unfold weight. simpl. lia.
Qed.

Lemma weight_clean_elems rt cs st :
  weight (path.clean_elems rt cs st) <= weight st + weight cs.
Proof.
  revert st. induction cs as [|c cs IH]; intros st.
  - unfold weight at 3. simpl. lia.
  - rewrite clean_elems_cons. specialize (IH (path.clean_step rt st c)).
    pose proof (weight_clean_step rt st c).
    change (weight (c :: cs)) with (S (String.length c) + weight cs). lia.
Qed.

Lemma length_concat out :
  out <> [] -> S (String.length (String.concat "/" out)) = weight out.
Proof.
  induction out as [|c out IH]; [congruence|]. intros _.
  destruct out as [|d out]; [unfold weight; simpl; lia|].
  rewrite concat_cons, !length_append.
  change (weight (c :: d :: out)) with (S (String.length c) + weight (d :: out)).
  rewrite <- IH by discriminate. simpl. lia.
Qed.

Lemma length_Clean_rooted x :
  path.rooted x = true -> String.length (path.Clean x) <= String.length x.
Proof.
  intros Hr. destruct x as [|c x]; [discriminate|].
  simpl in Hr. apply Ascii.eqb_eq in Hr as ->.
  rewrite Clean_unfold by discriminate.
  assert (Hw : weight (elems (String path.slash x)) <= S (String.length x)).
  { unfold elems.
    change (strings.Split (String path.slash x) path.slash)
      with ("" :: strings.Split x path.slash).
    rewrite clean_elems_cons.
    change (path.clean_step _ [] "") with (@nil string).
    etransitivity; [apply weight_clean_elems|].
    rewrite weight_Split. unfold weight at 1. simpl. lia. }
  change (path.rooted (String path.slash x)) with true.
  unfold path.render. simpl String.length.
  destruct (rev (elems (String path.slash x))) as [|e out] eqn:E; [simpl; lia|].
  rewrite length_concat by discriminate.
  rewrite <- E, weight_rev. exact Hw.
Qed.

(** Below ["/"], the parent of a rooted path is rooted and shorter. *)
Lemma Dir_shorter q :
  path.rooted q = true -> q <> "/" ->
  path.rooted (path.Dir q) = true /\ String.length (path.Dir q) < String.length q.
Proof.
  intros Hr Hq.
  destruct (path_Split_cases q) as [[Hs Hsp]|(d & f & Hs & -> & Hsp)].
  - rewrite (rooted_slashless q Hs) in Hr. discriminate.
  - unfold path.Dir. rewrite Hsp. simpl fst.
    destruct (String.eqb_spec d "") as [->|Hd].
    + split; [reflexivity|].
      rewrite append_nil_l in *. destruct f; [now contradiction Hq|]. simpl. lia.
    + rewrite rooted_append in Hr by assumption.
      rewrite Clean_trailing_slash by assumption. split.
      * now rewrite rooted_Clean.
      * pose proof (length_Clean_rooted d Hr). rewrite length_append. simpl. lia.
Qed.

(** *** The depth of a clean path *)

Lemma length_clean_step rt st c :
  length (path.clean_step rt st c) <= S (length st).
Proof.
  step_cases; simpl; try lia.
  destruct st as [|top st]; [destruct rt; simpl; lia|].
  destruct (String.eqb_spec top ".."); [destruct rt|]; simpl; lia.
Qed.

Lemma length_clean_elems rt cs st :
  length (path.clean_elems rt cs st) <= length st + length cs.
Proof.
  revert st. induction cs as [|c cs IH]; intros st; [simpl; lia|].
  rewrite clean_elems_cons. specialize (IH (path.clean_step rt st c)).
  pose proof (length_clean_step rt st c). simpl. lia.
Qed.

Lemma depth_of_rooted p : path.rooted p = true -> 2 <= depth_of p.
Proof.
  destruct p as [|c p]; [discriminate|]. simpl. intros Hc.
  apply Ascii.eqb_eq in Hc as ->. unfold depth_of.
  change (strings.Split (String path.slash p) path.slash)
    with ("" :: strings.Split p path.slash).
  pose proof (Split_not_nil p path.slash).
  destruct (strings.Split p path.slash); [congruence | simpl; lia].
Qed.

(** Below ["/"], the parent of a rooted path is ["/"] or has fewer
    elements. *)
Lemma Dir_fewer_elements q :
  path.rooted q = true -> q <> "/" ->
  path.Dir q = "/" \/ depth_of (path.Dir q) < depth_of q.
Proof.
  intros Hr Hq.
  destruct (path_Split_cases q) as [[Hs Hsp]|(d & f & Hs & -> & Hsp)].
  - rewrite (rooted_slashless q Hs) in Hr. discriminate.
  - unfold path.Dir. rewrite Hsp. simpl fst.
    destruct d as [|c x]; [now left|].
    rewrite Clean_trailing_slash by discriminate.
    rewrite append_cons in Hr. simpl in Hr. apply Ascii.eqb_eq in Hr as ->.
    rewrite Clean_unfold by discriminate.
    change (path.rooted (String path.slash x)) with true.
    assert (He : length (elems (String path.slash x)) <= length (strings.Split x path.slash)).
    { unfold elems.
      change (strings.Split (String path.slash x) path.slash)
        with ("" :: strings.Split x path.slash).
      rewrite clean_elems_cons. change (path.clean_step _ [] "") with (@nil string).
      apply (length_clean_elems true _ []). }
    pose proof (elems_slashless (String path.slash x)) as Hsl.
    apply Forall_rev in Hsl. rewrite <- length_rev in He.
    destruct (rev (elems (String path.slash x))) as [|e out]; [now left|].
    right. unfold depth_of, path.render.
    change (strings.Split (String path.slash (String.concat "/" (e :: out))) path.slash)
      with ("" :: strings.Split (String.concat (String path.slash "") (e :: out)) path.slash).
    rewrite Split_concat by (discriminate || assumption).
    rewrite Split_app. change (String path.slash x) with ("/" +:+ x).
    change (strings.Split ("/" +:+ x) path.slash) with ("" :: strings.Split x path.slash).
    rewrite length_app, (Split_without_sep f path.slash Hs).
    simpl in *. lia.
Qed.


End path_facts.

(** ** The walkers *)

Module walker_facts.
Import string_facts elements path_facts walker.

Section Walk.
Variable w : World.

Lemma findRoot_inside depth dev p :
  inside w dev p = true ->
  fs.findRoot w (S depth) dev p = fs.findRoot w depth dev (path.Dir p).
Proof.
  unfold inside. simpl. destruct (os_Lstat w (path.Dir p)) as [fi|]; [|discriminate].
  unfold fs.rootDevice. destruct (os.Sys fi) as [stat|]; [|discriminate].
  simpl. intros H. apply andb_true_iff in H as [H1 H2].
  rewrite H1. apply negb_true_iff in H2. rewrite H2. reflexivity.
Qed.

Lemma findRelPath_inside depth dev p rel :
  inside w dev p = true ->
  fs.findRelPath w (S depth) dev p rel
  = fs.findRelPath w depth dev (path.Dir p) (path.Base p :: rel).
Proof.
  unfold inside. simpl. destruct (os_Lstat w (path.Dir p)) as [fi|]; [|discriminate].
  unfold fs.rootDevice. destruct (os.Sys fi) as [stat|]; [|discriminate].
  simpl. intros H. apply andb_true_iff in H as [H1 H2].
  rewrite H1. apply negb_true_iff in H2. rewrite H2. reflexivity.
Qed.

Lemma findRoot_boundary depth dev p :
  boundary w dev p = true ->
  fs.findRoot w (S depth) dev p
  = walk_ret (if fs.isDotLustre w (path.Join [p; ".lustre"]) then p else "").
Proof.
  unfold boundary. simpl. destruct (os_Lstat w (path.Dir p)) as [fi|]; [|discriminate].
  unfold fs.rootDevice. destruct (os.Sys fi) as [stat|]; [|discriminate].
  simpl. intros ->. now destruct (fs.isDotLustre w _).
Qed.

Lemma findRelPath_boundary depth dev p rel :
  boundary w dev p = true ->
  fs.findRelPath w (S depth) dev p rel
  = walk_ret (if fs.isDotLustre w (path.Join [p; ".lustre"])
              then (p, path.Join rel) else ("", "")).
Proof.
  unfold boundary. simpl. destruct (os_Lstat w (path.Dir p)) as [fi|]; [|discriminate].
  unfold fs.rootDevice. destruct (os.Sys fi) as [stat|]; [|discriminate].
  simpl. intros ->. now destruct (fs.isDotLustre w _).
Qed.

Lemma findRoot_parent_fails depth dev p :
  parent_fails w p = true -> fs.findRoot w (S depth) dev p = walk_ret "".
Proof.
  unfold parent_fails. simpl. now destruct (os_Lstat w (path.Dir p)).
Qed.

Lemma findRelPath_parent_fails depth dev p rel :
  parent_fails w p = true -> fs.findRelPath w (S depth) dev p rel = walk_ret ("", "").
Proof.
  unfold parent_fails. simpl. now destruct (os_Lstat w (path.Dir p)).
Qed.

Lemma inside_not_root dev p : inside w dev p = true -> p <> "/".
Proof.
  unfold inside. destruct (os_Lstat w (path.Dir p)) as [fi|]; [|discriminate].
  destruct (os.Sys fi); [|discriminate].
  intros H. apply andb_true_iff in H as [_ H]. apply negb_true_iff in H.
  now apply String.eqb_neq.
Qed.

Lemma inside_or_boundary dev p fi st :
  os_Lstat w (path.Dir p) = Ok fi -> os.Sys fi = Some st ->
  inside w dev p = true \/ boundary w dev p = true.
Proof.
  unfold inside, boundary. intros -> ->.
  destruct (Z.eqb (syscall.Dev st) dev), (String.eqb p "/"); auto.
Qed.

(** After [n] steps the walk from [p] is at the [n]th ancestor of [p]. *)
Lemma findRoot_climbs n depth dev p :
  climbs w dev n p = true ->
  fs.findRoot w (n + depth) dev p = fs.findRoot w depth dev (ancestor n p).
Proof.
  revert p. induction n as [|n IH]; intros p H; [reflexivity|].
  simpl in H. apply andb_true_iff in H as [Hi Hc].
  change (S n + depth) with (S (n + depth)).
  rewrite findRoot_inside by assumption. now apply IH.
Qed.

Lemma findRelPath_climbs n depth dev p rel :
  climbs w dev n p = true ->
  fs.findRelPath w (n + depth) dev p rel
  = fs.findRelPath w depth dev (ancestor n p) (suffix n p rel).
Proof.
  revert p rel. induction n as [|n IH]; intros p rel H; [reflexivity|].
  simpl in H. apply andb_true_iff in H as [Hi Hc].
  change (S n + depth) with (S (n + depth)).
  rewrite findRelPath_inside by assumption. now apply IH.
Qed.

(** A walk that returns a root has climbed to it and found the sentinel
    there. *)
Lemma findRoot_root depth dev p root :
  fs.findRoot w depth dev p = Some (Ret root) -> root <> "" ->
  exists n, n < depth /\ on_mount w dev n p = true /\ root = ancestor n p.
Proof.
  revert p. induction depth as [|depth IH]; intros p H Hroot; [discriminate|].
  destruct (inside w dev p) eqn:Hi.
  - rewrite findRoot_inside in H by assumption.
    destruct (IH _ H Hroot) as (n & Hn & Hm & ->).
    exists (S n). split; [lia|]. split; [|reflexivity].
    unfold on_mount in *. simpl. now rewrite Hi.
  - destruct (boundary w dev p) eqn:Hb.
    + rewrite findRoot_boundary in H by assumption.
      destruct (fs.isDotLustre w (path.Join [p; ".lustre"])) eqn:Hd.
      * exists 0. split; [lia|]. injection H as <-.
        split; [|reflexivity]. unfold on_mount. simpl. now rewrite Hb, Hd.
      * injection H as <-. congruence.
    + exfalso. revert H Hi Hb. unfold inside, boundary. simpl.
      destruct (os_Lstat w (path.Dir p)) as [fi|]; [|intros [= <-]; congruence].
      unfold fs.rootDevice. destruct (os.Sys fi) as [stat|]; [|discriminate].
      simpl. destruct (Z.eqb (syscall.Dev stat) dev), (String.eqb p "/"); discriminate.
Qed.

Lemma findRelPath_root depth dev p rel root r :
  fs.findRelPath w depth dev p rel = Some (Ret (root, r)) -> root <> "" ->
  exists n, n < depth /\ on_mount w dev n p = true
            /\ root = ancestor n p /\ r = path.Join (suffix n p rel).
Proof.
  revert p rel. induction depth as [|depth IH]; intros p rel H Hroot; [discriminate|].
  destruct (inside w dev p) eqn:Hi.
  - rewrite findRelPath_inside in H by assumption.
    destruct (IH _ _ H Hroot) as (n & Hn & Hm & -> & ->).
    exists (S n). split; [lia|]. split; [|split; reflexivity].
    unfold on_mount in *. simpl. now rewrite Hi.
  - destruct (boundary w dev p) eqn:Hb.
    + rewrite findRelPath_boundary in H by assumption.
      destruct (fs.isDotLustre w (path.Join [p; ".lustre"])) eqn:Hd.
      * exists 0. split; [lia|]. injection H as <- <-.
        split; [|split; reflexivity]. unfold on_mount. simpl. now rewrite Hb, Hd.
      * injection H as <- <-. congruence.
    + exfalso. revert H Hi Hb. unfold inside, boundary. simpl.
      destruct (os_Lstat w (path.Dir p)) as [fi|]; [|intros [= <-]; congruence].
      unfold fs.rootDevice. destruct (os.Sys fi) as [stat|]; [|discriminate].
      simpl. destruct (Z.eqb (syscall.Dev stat) dev), (String.eqb p "/"); discriminate.
Qed.

(** A path below a root is walked to that root. *)
Lemma on_mount_findRoot n depth dev p :
  on_mount w dev n p = true ->
  fs.findRoot w (n + S depth) dev p = Some (Ret (ancestor n p)).
Proof.
  unfold on_mount. intros H.
  apply andb_true_iff in H as [H Hd]. apply andb_true_iff in H as [Hc Hb].
  rewrite findRoot_climbs, findRoot_boundary by assumption. now rewrite Hd.
Qed.

Lemma on_mount_findRelPath n depth dev p rel :
  on_mount w dev n p = true ->
  fs.findRelPath w (n + S depth) dev p rel
  = Some (Ret (ancestor n p, path.Join (suffix n p rel))).
Proof.
  unfold on_mount. intros H.
  apply andb_true_iff in H as [H Hd]. apply andb_true_iff in H as [Hc Hb].
  rewrite findRelPath_climbs, findRelPath_boundary by assumption. now rewrite Hd.
Qed.

(** The walk from a rooted path returns within as many steps as the
    path has bytes. *)
Lemma findRoot_returns depth dev p :
  path.rooted p = true -> String.length p <= depth ->
  exists r, fs.findRoot w depth dev p = Some r.
Proof.
  revert p. induction depth as [|depth IH]; intros p Hr Hl.
  - destruct p; [discriminate | simpl in Hl; lia].
  - simpl. destruct (os_Lstat w (path.Dir p)) as [fi|]; [|now eexists].
    destruct (fs.rootDevice fi) as [d|msg]; [|now eexists]. simpl.
    destruct (negb (Z.eqb d dev) || String.eqb p "/") eqn:Hb.
    + destruct (fs.isDotLustre w _); now eexists.
    + apply orb_false_iff in Hb as [_ Hp]. apply String.eqb_neq in Hp.
      destruct (Dir_shorter p Hr Hp) as [Hr' Hl'].
      apply IH; [assumption | lia].
Qed.

Lemma findRelPath_returns depth dev p rel :
  path.rooted p = true -> String.length p <= depth ->
  exists r, fs.findRelPath w depth dev p rel = Some r.
Proof.
  revert p rel. induction depth as [|depth IH]; intros p rel Hr Hl.
  - destruct p; [discriminate | simpl in Hl; lia].
  - simpl. destruct (os_Lstat w (path.Dir p)) as [fi|]; [|now eexists].
    destruct (fs.rootDevice fi) as [d|msg]; [|now eexists]. simpl.
    destruct (negb (Z.eqb d dev) || String.eqb p "/") eqn:Hb.
    + destruct (fs.isDotLustre w _); now eexists.
    + apply orb_false_iff in Hb as [_ Hp]. apply String.eqb_neq in Hp.
      destruct (Dir_shorter p Hr Hp) as [Hr' Hl'].
      apply IH; [assumption | lia].
Qed.

Lemma ancestor_not_empty n p : p <> "" -> ancestor n p <> "".
Proof.
  revert p. induction n as [|n IH]; intros p Hp; [exact Hp|].
  simpl. apply IH. apply Clean_not_empty.
Qed.

Lemma ancestor_S n p : ancestor (S n) p = path.Dir (ancestor n p).
Proof. revert p. induction n as [|n IH]; intros p; [reflexivity|]. simpl. now rewrite <- IH. Qed.

(** What [findRelPath] carries from step to step. *)
Lemma climbs_joined n dev q rel :
  clean_form q -> Forall elem rel -> climbs w dev n q = true ->
  Forall elem (suffix n q rel)
  /\ path.Clean (String.concat "/" (ancestor n q :: suffix n q rel))
     = path.Clean (String.concat "/" (q :: rel)).
Proof.
  revert q rel. induction n as [|n IH]; intros q rel Hq Hrel Hc; [now split|].
  simpl in Hc. apply andb_true_iff in Hc as [Hi Hc].
  pose proof (inside_not_root dev q Hi) as Hne.
  destruct (Dir_Base q Hne Hq) as (_ & Hb & Hbs & _ & _).
  assert (Hrel' : Forall elem (path.Base q :: rel))
    by (constructor; [split|]; assumption).
  destruct (IH (path.Dir q) _ (Clean_clean_form _) Hrel' Hc) as [H1 H2].
  split; [exact H1|].
  rewrite <- (joined_step q rel Hne Hq Hrel). exact H2.
Qed.

(** The walk from a rooted path returns within as many steps as the
    path has elements. *)
Lemma findRoot_returns_depth depth dev p :
  path.rooted p = true -> depth_of p <= depth ->
  exists r, fs.findRoot w depth dev p = Some r.
Proof.
  revert p. induction depth as [|depth IH]; intros p Hr Hl.
  - pose proof (depth_of_rooted p Hr). lia.
  - simpl. destruct (os_Lstat w (path.Dir p)) as [fi|]; [|now eexists].
    destruct (fs.rootDevice fi) as [d|msg]; [|now eexists]. simpl.
    destruct (negb (Z.eqb d dev) || String.eqb p "/") eqn:Hb.
    + destruct (fs.isDotLustre w _); now eexists.
    + apply orb_false_iff in Hb as [_ Hp]. apply String.eqb_neq in Hp.
      pose proof (depth_of_rooted p Hr).
      destruct (Dir_fewer_elements p Hr Hp) as [->|Hlt].
      * apply findRoot_returns; [reflexivity | simpl; lia].
      * apply IH; [now apply Dir_shorter | lia].
Qed.

Lemma findRelPath_returns_depth depth dev p rel :
  path.rooted p = true -> depth_of p <= depth ->
  exists r, fs.findRelPath w depth dev p rel = Some r.
Proof.
  revert p rel. induction depth as [|depth IH]; intros p rel Hr Hl.
  - pose proof (depth_of_rooted p Hr). lia.
  - simpl. destruct (os_Lstat w (path.Dir p)) as [fi|]; [|now eexists].
    destruct (fs.rootDevice fi) as [d|msg]; [|now eexists]. simpl.
    destruct (negb (Z.eqb d dev) || String.eqb p "/") eqn:Hb.
    + destruct (fs.isDotLustre w _); now eexists.
    + apply orb_false_iff in Hb as [_ Hp]. apply String.eqb_neq in Hp.
      pose proof (depth_of_rooted p Hr).
      destruct (Dir_fewer_elements p Hr Hp) as [->|Hlt].
      * apply findRelPath_returns; [reflexivity | simpl; lia].
      * apply IH; [now apply Dir_shorter | lia].
Qed.




End Walk.

End walker_facts.

(** ** The cache of mount handles *)

Module cache_facts.
Import cache.

Section Calls.
Variable w : World.

Lemma set_lock_free md :
  fs.lock md = false -> fs.set_lock false (fs.set_lock true md) = md.
Proof. destruct md. simpl. now intros ->. Qed.

(** A handle that is opened answers without opening. *)
Lemma mountDir_GetMdt_opened mnt md fid s :
  fs.heap s !! mnt = Some md -> fs.opened md = true ->
  fs.mountDir_GetMdt w mnt fid s = Ret (answer w (fs.f md) fid, s).
Proof.
  intros Hm Ho. unfold fs.mountDir_GetMdt, fs.bind, fs.load.
  rewrite Hm, Ho. simpl. rewrite Hm. unfold answer.
  now destruct (llapi_GetMdtIndexByFid w _ fid).
Qed.

(** A handle that is not opened opens its path, once. *)
Lemma mountDir_GetMdt_opens mnt md fid s file :
  fs.heap s !! mnt = Some md -> fs.lock md = false -> fs.opened md = false ->
  os_Open w (length (fs.opens s)) (fs.path md) = Ok file ->
  fs.mountDir_GetMdt w mnt fid s
  = Ret (answer w (Some file) fid,
         {| fs.openMount := fs.openMount s;
            fs.heap := <[mnt := opened_handle (fs.path md) file]> (fs.heap s);
            fs.opens := fs.opens s ++ [fs.path md] |}).
Proof.
  intros Hm Hl Ho Hopen.
  unfold fs.mountDir_GetMdt, fs.mountDir_open, fs.Lock, fs.Unlock, fs.Open,
    fs.bind, fs.load, fs.store, fs.ret.
  rewrite Hm, Ho. simpl. rewrite Hm, Hl. simpl.
  rewrite !lookup_insert_eq. simpl. rewrite Ho. simpl. rewrite Hopen.
  simpl. rewrite !lookup_insert_eq. simpl. rewrite !lookup_insert_eq. simpl.
  rewrite !lookup_insert_eq. simpl. rewrite !insert_insert_eq.
  unfold answer, opened_handle, fs.set_lock, fs.set_opened, fs.set_f. simpl.
  now destruct (llapi_GetMdtIndexByFid w _ fid).
Qed.

Lemma mountDir_GetMdt_fails mnt md fid s e :
  fs.heap s !! mnt = Some md -> fs.lock md = false -> fs.opened md = false ->
  os_Open w (length (fs.opens s)) (fs.path md) = Err e ->
  fs.mountDir_GetMdt w mnt fid s
  = Ret ((0%Z, Some e),
         {| fs.openMount := fs.openMount s;
            fs.heap := fs.heap s;
            fs.opens := fs.opens s ++ [fs.path md] |}).
Proof.
  intros Hm Hl Ho Hopen.
  unfold fs.mountDir_GetMdt, fs.mountDir_open, fs.Lock, fs.Unlock, fs.Open,
    fs.bind, fs.load, fs.store, fs.ret.
  rewrite Hm, Ho. simpl. rewrite Hm, Hl. simpl.
  rewrite !lookup_insert_eq. simpl. rewrite Ho. simpl. rewrite Hopen.
  simpl. rewrite !lookup_insert_eq. simpl. rewrite !insert_insert_eq.
  rewrite (set_lock_free md Hl), insert_id by assumption. reflexivity.
Qed.

Lemma wf_store s mnt root md o :
  wf s -> fs.openMount s !! root = Some mnt ->
  fs.path md = root -> fs.lock md = false ->
  wf {| fs.openMount := fs.openMount s; fs.heap := <[mnt := md]> (fs.heap s); fs.opens := o |}.
Proof.
  intros Hwf Hroot Hp Hl root' mnt' Hroot'. simpl in *.
  destruct (Hwf root' mnt' Hroot') as (md' & Hm' & Hp' & Hl').
  destruct (decide (mnt = mnt')) as [<-|Hne].
  - exists md. rewrite lookup_insert_eq. repeat split; [|assumption].
    destruct (Hwf root mnt Hroot) as (md0 & Hm0 & Hp0 & _). congruence.
  - exists md'. rewrite lookup_insert_ne by assumption. auto.
Qed.

Lemma wf_opens s o :
  wf s -> wf {| fs.openMount := fs.openMount s; fs.heap := fs.heap s; fs.opens := o |}.
Proof. intros Hwf root mnt Hroot. exact (Hwf root mnt Hroot). Qed.

Lemma wf_alloc s root md o :
  wf s -> fs.openMount s !! root = None ->
  fs.path md = root -> fs.lock md = false ->
  wf {| fs.openMount := <[root := fresh (dom (fs.heap s))]> (fs.openMount s);
        fs.heap := <[fresh (dom (fs.heap s)) := md]> (fs.heap s);
        fs.opens := o |}.
Proof.
  intros Hwf Hroot Hp Hl root' mnt' Hroot'. simpl in *.
  destruct (decide (root = root')) as [<-|Hne].
  - rewrite lookup_insert_eq in Hroot'. injection Hroot' as <-.
    exists md. now rewrite lookup_insert_eq.
  - rewrite lookup_insert_ne in Hroot' by assumption.
    destruct (Hwf root' mnt' Hroot') as (md' & Hm' & Hp' & Hl').
    exists md'. rewrite lookup_insert_ne; [auto|].
    intros <-. pose proof (is_fresh (dom (fs.heap s))) as Hf.
    apply not_elem_of_dom in Hf. congruence.
Qed.

Lemma wf_init : wf fs.init.
Proof. intros root mnt H. unfold fs.init in H. simpl in H. now rewrite lookup_empty in H. Qed.

(** A call on a root whose handle is opened opens nothing. *)
Lemma GetMdt_again root fid s md :
  handle s root = Some md -> fs.opened md = true ->
  fs.GetMdt w root fid s = Ret (answer w (fs.f md) fid, s).
Proof.
  unfold handle. intros Hh Ho.
  destruct (fs.openMount s !! root) as [mnt|] eqn:Hroot; [|discriminate].
  unfold fs.GetMdt, fs.bind, fs.getOpenMount, fs.RootDir. rewrite Hroot.
  now apply mountDir_GetMdt_opened.
Qed.

(** A call on a root whose handle is not opened opens the root; when
    that succeeds the handle is opened. *)
Lemma GetMdt_opens root fid s file :
  wf s -> unopened s root ->
  os_Open w (length (fs.opens s)) root = Ok file ->
  exists s',
    fs.GetMdt w root fid s = Ret (answer w (Some file) fid, s')
    /\ wf s'
    /\ handle s' root = Some (opened_handle root file)
    /\ fs.opens s' = fs.opens s ++ [root].
Proof.
  unfold unopened, handle. intros Hwf Hu Hopen.
  unfold fs.GetMdt, fs.bind, fs.getOpenMount, fs.RootDir.
  destruct (fs.openMount s !! root) as [mnt|] eqn:Hroot.
  - destruct (Hwf root mnt Hroot) as (md & Hm & Hp & Hl).
    rewrite Hm in Hu. rewrite <- Hp in Hopen.
    rewrite (mountDir_GetMdt_opens mnt md fid s file Hm Hl Hu Hopen).
    eexists. split; [reflexivity|]. rewrite Hp. simpl. repeat split.
    + now apply (wf_store s mnt root).
    + now rewrite Hroot, lookup_insert_eq.
  - set (md := {| fs.path := root; fs.lock := false; fs.opened := false; fs.f := None |}).
    erewrite (mountDir_GetMdt_opens _ md); simpl;
      [| apply lookup_insert_eq | reflexivity | reflexivity | exact Hopen].
    eexists. split; [reflexivity|]. simpl. repeat split.
    + rewrite insert_insert_eq. now apply wf_alloc.
    + now rewrite !lookup_insert_eq.
Qed.

(** When the open fails the handle stays as it was. *)
Lemma GetMdt_fails root fid s e :
  wf s -> unopened s root ->
  os_Open w (length (fs.opens s)) root = Err e ->
  exists s',
    fs.GetMdt w root fid s = Ret ((0%Z, Some e), s')
    /\ wf s'
    /\ unopened s' root
    /\ fs.opens s' = fs.opens s ++ [root].
Proof.
  unfold unopened, handle. intros Hwf Hu Hopen.
  unfold fs.GetMdt, fs.bind, fs.getOpenMount, fs.RootDir.
  destruct (fs.openMount s !! root) as [mnt|] eqn:Hroot.
  - destruct (Hwf root mnt Hroot) as (md & Hm & Hp & Hl).
    rewrite Hm in Hu. rewrite <- Hp in Hopen.
    rewrite (mountDir_GetMdt_fails mnt md fid s e Hm Hl Hu Hopen).
    eexists. split; [reflexivity|]. rewrite Hp. simpl. repeat split.
    + now apply wf_opens.
    + now rewrite Hroot, Hm.
  - set (md := {| fs.path := root; fs.lock := false; fs.opened := false; fs.f := None |}).
    erewrite (mountDir_GetMdt_fails _ md); simpl;
      [| apply lookup_insert_eq | reflexivity | reflexivity | exact Hopen].
    eexists. split; [reflexivity|]. simpl. repeat split.
    + now apply wf_alloc.
    + now rewrite !lookup_insert_eq.
Qed.

Lemma GetMdt_calls_again root fids s md :
  handle s root = Some md -> fs.opened md = true ->
  fs.GetMdt_calls w root fids s = Ret (map (answer w (fs.f md)) fids, s).
Proof.
  intros Hh Ho. induction fids as [|fid fids IH]; [reflexivity|].
  simpl. unfold fs.bind at 1. rewrite (GetMdt_again root fid s md Hh Ho).
  unfold fs.bind at 1. now rewrite IH.
Qed.

End Calls.

End cache_facts.

(** ** The properties of the specification *)

Import string_facts elements path_facts walker walker_facts cache cache_facts.

(** *** Lookup errors on the way up *)

(** C1, as the specification states it, fails: in [worlds.hidden_parent]
    the walk from ["/mnt/fs/a/b"] climbs twice, then the stat of ["/mnt"]
    fails with [EACCES]; [MountRoot] and [MountRelPath] answer that the path
    is not on a Lustre file system, and the error of the stat is lost. *)
Lemma lookup_error_is_lost :
  os_Lstat worlds.hidden_parent "/mnt/fs/a/b" = worlds.stat 2 true
  /\ walker.climbs worlds.hidden_parent 2 2 "/mnt/fs/a/b" = true
  /\ os_Lstat worlds.hidden_parent (path.Dir (walker.ancestor 2 "/mnt/fs/a/b"))
     = Err (SysError "lstat" "/mnt" 13)
  /\ fs.MountRoot worlds.hidden_parent 3 "/mnt/fs/a/b"
     = Some (Ret ("", Some (Errorf "/mnt/fs/a/b not a Lustre filesystem")))
  /\ fs.MountRelPath worlds.hidden_parent 3 "/mnt/fs/a/b"
     = Some (Ret ("", "", Some (Errorf "/mnt/fs/a/b not a Lustre filesystem")))
  /\ Errorf "/mnt/fs/a/b not a Lustre filesystem" <> SysError "lstat" "/mnt" 13.
Proof. repeat split; try reflexivity. discriminate. Qed.

(** C1, amended: when the start is stat-able and, after [n] steps up, the
    stat of the parent fails, the walk returns the empty root, and
    [MountRoot] and [MountRelPath] return the error "not a Lustre
    filesystem", as they do for a path that is not on Lustre. *)
Theorem lookup_error_reported_as_not_lustre
    (w : World) (p : string) (fi : os.FileInfo) (st : syscall.Stat_t) (n : nat) (e : error) :
  os_Lstat w p = Ok fi ->
  os.Sys fi = Some st ->
  walker.climbs w (syscall.Dev st) n p = true ->
  os_Lstat w (path.Dir (walker.ancestor n p)) = Err e ->
  (forall depth, n < depth ->
     fs.MountRoot w depth p = Some (Ret ("", Some (not_lustre p))))
  /\ (filepath.Clean p = p ->
      forall depth, n < depth ->
        fs.MountRelPath w depth p = Some (Ret ("", "", Some (not_lustre p)))).
Proof.
  intros Hp Hst Hc He.
  assert (Hf : walker.parent_fails w (walker.ancestor n p) = true)
    by (unfold walker.parent_fails; now rewrite He).
  split.
  - intros depth Hd. replace depth with (n + S (depth - S n)) by lia.
    unfold fs.MountRoot. rewrite Hp. unfold fs.rootDevice. rewrite Hst. simpl.
    rewrite findRoot_climbs, findRoot_parent_fails by assumption. reflexivity.
  - intros Hclean depth Hd. replace depth with (n + S (depth - S n)) by lia.
    unfold fs.MountRelPath. rewrite Hclean, Hp. unfold fs.rootDevice. rewrite Hst. simpl.
    rewrite findRelPath_climbs, findRelPath_parent_fails by assumption. reflexivity.
Qed.

Lemma lookup_error_reported_as_not_lustre_witness :
  (os_Lstat worlds.hidden_parent "/mnt/fs/a/b" = worlds.stat 2 true
   /\ walker.climbs worlds.hidden_parent 2 2 "/mnt/fs/a/b" = true
   /\ os_Lstat worlds.hidden_parent (path.Dir (walker.ancestor 2 "/mnt/fs/a/b"))
      = Err (SysError "lstat" "/mnt" 13))
  /\ fs.MountRoot worlds.hidden_parent 3 "/mnt/fs/a/b"
     = Some (Ret ("", Some (not_lustre "/mnt/fs/a/b"))).
Proof.
  split; [repeat split|].
  apply (proj1 (lookup_error_reported_as_not_lustre worlds.hidden_parent "/mnt/fs/a/b"
                  _ _ 2 _ eq_refl eq_refl eq_refl eq_refl)).
  lia.
Defined.

(** *** Paths that are not on Lustre *)

(** C2, as the specification states it, fails: ["/tmp/unrelated"] of
    [worlds.lustre] is on no Lustre mount and its ancestors are stat-able,
    and [MountRoot] returns an error that is not nil. *)
Lemma not_found_is_an_error :
  os_Lstat worlds.lustre "/tmp/unrelated" = worlds.stat 1 true
  /\ os_Lstat worlds.lustre "/tmp" = worlds.stat 1 true
  /\ os_Lstat worlds.lustre "/" = worlds.stat 1 true
  /\ fs.isDotLustre worlds.lustre "/tmp/unrelated/.lustre" = false
  /\ fs.isDotLustre worlds.lustre "/tmp/.lustre" = false
  /\ fs.isDotLustre worlds.lustre "/.lustre" = false
  /\ fs.MountRoot worlds.lustre 3 "/tmp/unrelated"
     = Some (Ret ("", Some (Errorf "/tmp/unrelated not a Lustre filesystem")))
  /\ Some (Errorf "/tmp/unrelated not a Lustre filesystem") <> None.
Proof. repeat split; try reflexivity. discriminate. Qed.

(** Where no ancestor holds the sentinel, a walk that returns returns the
    empty root. *)
Lemma findRoot_outside (w : World) (depth : nat) (dev : Z) (q : string) (r : outcome string) :
  (forall n, exists fi st,
      os_Lstat w (path.Dir (ancestor n q)) = Ok fi /\ os.Sys fi = Some st) ->
  (forall n, fs.isDotLustre w (path.Join [ancestor n q; ".lustre"]) = false) ->
  fs.findRoot w depth dev q = Some r ->
  r = Ret "".
Proof.
  revert q. induction depth as [|depth IH]; intros q Hstat Hout Hrun; [discriminate|].
  destruct (Hstat 0) as (fi & st & Hfi & Hst).
  destruct (inside_or_boundary w dev q fi st Hfi Hst) as [Hi|Hb].
  - rewrite findRoot_inside in Hrun by assumption.
    apply (IH (path.Dir q)); [| | assumption].
    + intros n. exact (Hstat (S n)).
    + intros n. exact (Hout (S n)).
  - rewrite findRoot_boundary in Hrun by assumption.
    pose proof (Hout 0) as H0. change (ancestor 0 q) with q in H0.
    rewrite H0 in Hrun. now injection Hrun as <-.
Qed.

(** C2, amended: for a rooted path [p] that is stat-able, whose ancestors
    are all stat-able and none of which holds the sentinel, [MountRoot]
    returns the empty root and the error "p not a Lustre filesystem"; the
    negative result is an error value. *)
Theorem MountRoot_outside_mount
    (w : World) (p : string) (fi : os.FileInfo) (st : syscall.Stat_t) (depth : nat) :
  path.rooted p = true ->
  os_Lstat w p = Ok fi ->
  os.Sys fi = Some st ->
  (forall n, exists fi' st',
      os_Lstat w (path.Dir (ancestor n p)) = Ok fi' /\ os.Sys fi' = Some st') ->
  (forall n, fs.isDotLustre w (path.Join [ancestor n p; ".lustre"]) = false) ->
  Nat.min (depth_of p) (String.length p) <= depth ->
  fs.MountRoot w depth p = Some (Ret ("", Some (not_lustre p))).
Proof.
  intros Hr Hp Hst Hstat Hout Hl.
  assert (Hrun : exists r, fs.findRoot w depth (syscall.Dev st) p = Some r).
  { destruct (Nat.min_dec (depth_of p) (String.length p)) as [E|E];
      rewrite E in Hl; [now apply findRoot_returns_depth | now apply findRoot_returns]. }
  destruct Hrun as [r Hrun].
  pose proof (findRoot_outside w depth _ p r Hstat Hout Hrun) as ->.
  unfold fs.MountRoot. rewrite Hp. unfold fs.rootDevice. rewrite Hst. simpl.
  now rewrite Hrun.
Qed.

Lemma MountRoot_outside_mount_witness :
  fs.MountRoot (worlds.flat 1) 3 "/tmp/unrelated"
  = Some (Ret ("", Some (not_lustre "/tmp/unrelated"))).
Proof.
  apply (MountRoot_outside_mount (worlds.flat 1) "/tmp/unrelated" _ _ 3
           eq_refl eq_refl eq_refl).
  - intros n. eexists _, _. split; reflexivity.
  - intros n. reflexivity.
  - vm_compute. lia.
Defined.

(** *** The root and the relative path *)

(** Whatever [MountRelPath] returns without an error, joined, is the clean
    form of the path it was given. *)
Lemma MountRelPath_sound (w : World) (depth : nat) (p root rel : string) :
  fs.MountRelPath w depth p = Some (Ret (root, rel, None)) ->
  fs.Join root [rel] = filepath.Clean p.
Proof.
  unfold fs.MountRelPath, filepath.Clean.
  destruct (os_Lstat w (path.Clean p)) as [fi|]; [|discriminate].
  destruct (fs.rootDevice fi) as [dev|]; [|discriminate]. simpl.
  destruct (fs.findRelPath w depth dev (path.Clean p) []) as [[[root' rel']|]|] eqn:Hf;
    [|discriminate|discriminate].
  simpl. destruct (String.eqb_spec root' "") as [|Hroot]; [discriminate|].
  intros [= -> ->].
  destruct (findRelPath_root w _ _ _ _ _ _ Hf Hroot) as (n & _ & Hm & -> & ->).
  unfold on_mount in Hm. apply andb_true_iff in Hm as [Hm _].
  apply andb_true_iff in Hm as [Hc _].
  destruct (climbs_joined w n dev (path.Clean p) [] (Clean_clean_form p)
              (List.Forall_nil _) Hc) as [Hrel Hj].
  rewrite joined_final; [|now apply ancestor_not_empty, Clean_not_empty | exact Hrel].
  rewrite Hj. apply Clean_idempotent.
Qed.

(** X17: when the clean form of [p] is [n] steps below a root of the
    target file system, [MountRelPath] returns that root and the suffix
    made of the [n] elements below it, in their order; the root joined with
    the suffix is the clean form of [p]. *)
Theorem MountRelPath_join
    (w : World) (p : string) (fi : os.FileInfo) (st : syscall.Stat_t) (n : nat) :
  os_Lstat w (filepath.Clean p) = Ok fi ->
  os.Sys fi = Some st ->
  on_mount w (syscall.Dev st) n (filepath.Clean p) = true ->
  exists root rel,
    (forall depth, n < depth -> fs.MountRelPath w depth p = Some (Ret (root, rel, None)))
    /\ root = ancestor n (filepath.Clean p)
    /\ rel = path.Join (suffix n (filepath.Clean p) [])
    /\ fs.Join root [rel] = filepath.Clean p.
Proof.
  intros Hp Hst Hm.
  assert (Hrun : forall depth, n < depth ->
            fs.MountRelPath w depth p
            = Some (Ret (ancestor n (filepath.Clean p),
                         path.Join (suffix n (filepath.Clean p) []), None))).
  { intros depth Hd. replace depth with (n + S (depth - S n)) by lia.
    unfold fs.MountRelPath. rewrite Hp. unfold fs.rootDevice. rewrite Hst. simpl.
    rewrite on_mount_findRelPath by assumption. simpl.
    destruct (String.eqb_spec (ancestor n (filepath.Clean p)) "") as [E|_]; [|reflexivity].
    exfalso. exact (ancestor_not_empty n _ (Clean_not_empty p) E). }
  eexists _, _. split; [exact Hrun|]. split; [reflexivity|]. split; [reflexivity|].
  apply (MountRelPath_sound w (S n)). apply Hrun. lia.
Qed.

Lemma MountRelPath_join_witness :
  (os_Lstat worlds.lustre (filepath.Clean "/mnt/fs/a/./b//c") = worlds.stat 2 false
   /\ on_mount worlds.lustre 2 3 (filepath.Clean "/mnt/fs/a/./b//c") = true)
  /\ exists root rel,
      (forall depth, 3 < depth ->
         fs.MountRelPath worlds.lustre depth "/mnt/fs/a/./b//c" = Some (Ret (root, rel, None)))
      /\ root = "/mnt/fs"
      /\ rel = "a/b/c"
      /\ fs.Join root [rel] = "/mnt/fs/a/b/c".
Proof.
  split; [split; reflexivity|].
  exact (MountRelPath_join worlds.lustre "/mnt/fs/a/./b//c" _ _ 3 eq_refl eq_refl eq_refl).
Defined.

(** C3: the code breaks the claim on a relative path. In
    [worlds.lustre_at_root] Lustre is mounted at ["/"]: ["a"] is stat-able
    on the device of the mount and the sentinel of ["/"] is valid, so ["a"]
    is on the mounted file system. The walk of [MountRelPath] goes from
    ["a"] to ["."], whose parent is ["."] again, on the same device, and
    [MountRelPath] returns at no depth: it gives no root and no suffix. *)
Theorem MountRelPath_relative_never_returns :
  filepath.Clean "a" = "a"
  /\ os_Lstat worlds.lustre_at_root "a" = worlds.stat 7 true
  /\ os_Lstat worlds.lustre_at_root "." = worlds.stat 7 true
  /\ fs.isDotLustre worlds.lustre_at_root "/.lustre" = true
  /\ path.Dir "a" = "."
  /\ path.Dir "." = "."
  /\ forall depth, fs.MountRelPath worlds.lustre_at_root depth "a" = None.
Proof.
  do 6 (split; [reflexivity|]).
  assert (Hdot : forall depth rel,
             fs.findRelPath worlds.lustre_at_root depth 7 "." rel = None).
  { induction depth as [|depth IH]; intros rel; [reflexivity|].
    rewrite findRelPath_inside by reflexivity.
    change (path.Dir ".") with ".". apply IH. }
  assert (Hrun : forall depth,
             fs.findRelPath worlds.lustre_at_root depth 7 "a" [] = None).
  { intros [|depth]; [reflexivity|].
    rewrite findRelPath_inside by reflexivity.
    change (path.Dir "a") with ".". apply Hdot. }
  intros depth. unfold fs.MountRelPath.
  change (filepath.Clean "a") with "a".
  change (os_Lstat worlds.lustre_at_root "a") with (worlds.stat 7 true).
  unfold worlds.stat, fs.rootDevice, walk_lift, walk_bind at 1.
  cbv beta iota delta [os.Sys syscall.Dev].
  now rewrite Hrun.
Qed.

(** *** Termination *)

(** C4: the code breaks the claim at ["."]. The parent of ["."] is
    ["."], which is no shorter; the test [pathname == "/"] stops the walk at
    the top of a rooted path and has no counterpart for ["."]. In a file
    system that has ["."] on one device the walk of [findRoot] from ["."]
    returns at no depth, and [MountRoot] returns neither a root nor an
    error. *)
Theorem walk_from_dot_never_returns :
  os_Lstat (worlds.flat 1) "." = worlds.stat 1 true
  /\ path.Dir "." = "."
  /\ never_returns (worlds.flat 1) 1 "."
  /\ forall depth, fs.MountRoot (worlds.flat 1) depth "." = None.
Proof.
  assert (Hrun : never_returns (worlds.flat 1) 1 ".").
  { intros depth. induction depth as [|depth IH]; [reflexivity | exact IH]. }
  do 2 (split; [reflexivity|]). split; [exact Hrun|].
  intros depth. unfold fs.MountRoot.
  change (os_Lstat (worlds.flat 1) ".") with (worlds.stat 1 true).
  unfold worlds.stat, fs.rootDevice, walk_lift, walk_bind at 1.
  cbv beta iota delta [os.Sys syscall.Dev].
  now rewrite (Hrun depth).
Qed.

(** X18: the walk from a rooted path returns, at a depth of at most the
    number of elements of the path, and at most its length: below
    ["/"] the parent of a rooted path is rooted, strictly shorter, and is
    ["/"] or has fewer elements; the walk stops at ["/"]. *)
Theorem rooted_walk_terminates (w : World) (dev : Z) (p : string) (depth : nat) :
  path.rooted p = true ->
  Nat.min (depth_of p) (String.length p) <= depth ->
  (exists r, fs.findRoot w depth dev p = Some r)
  /\ (forall rel, exists r, fs.findRelPath w depth dev p rel = Some r)
  /\ (exists r, fs.MountRoot w depth p = Some r)
  /\ (p <> "/" ->
      path.rooted (path.Dir p) = true
      /\ String.length (path.Dir p) < String.length p
      /\ (path.Dir p = "/" \/ depth_of (path.Dir p) < depth_of p)).
Proof.
  intros Hr Hl.
  assert (Hroot : forall d, exists r, fs.findRoot w depth d p = Some r).
  { intros d. destruct (Nat.min_dec (depth_of p) (String.length p)) as [E|E];
      rewrite E in Hl; [now apply findRoot_returns_depth | now apply findRoot_returns]. }
  split; [apply Hroot | split; [|split]].
  - intros rel. destruct (Nat.min_dec (depth_of p) (String.length p)) as [E|E];
      rewrite E in Hl; [now apply findRelPath_returns_depth | now apply findRelPath_returns].
  - unfold fs.MountRoot. destruct (os_Lstat w p) as [fi|]; [|now eexists].
    destruct (fs.rootDevice fi) as [d|]; [|now eexists]. simpl.
    destruct (Hroot d) as [[mnt|msg] ->]; simpl; [|now eexists].
    destruct (String.eqb mnt ""); now eexists.
  - intros Hp. destruct (Dir_shorter p Hr Hp) as [H1 H2].
    split; [exact H1 | split; [exact H2 | now apply Dir_fewer_elements]].
Qed.

Lemma rooted_walk_terminates_witness :
  (path.rooted "/mnt/fs/a/b" = true
   /\ Nat.min (depth_of "/mnt/fs/a/b") (String.length "/mnt/fs/a/b") <= 5)
  /\ fs.findRoot worlds.lustre 5 2 "/mnt/fs/a/b" = Some (Ret "/mnt/fs")
  /\ (exists r, fs.findRoot worlds.lustre 5 1 "/mnt/fs/a/b" = Some r).
Proof.
  split; [split; [reflexivity | vm_compute; lia]|].
  split; [reflexivity|].
  apply (rooted_walk_terminates worlds.lustre 1 "/mnt/fs/a/b" 5 eq_refl).
  vm_compute. lia.
Defined.

(** *** The root is an ancestor *)




(** *** Lustre mounted at the root of the system *)

(** C6: [MountRoot] of ["/"] tests the sentinel of ["/"] at the first step,
    whatever the device of ["/"], and returns ["/"] when the sentinel is
    valid. *)
Theorem MountRoot_at_os_root
    (w : World) (fi : os.FileInfo) (st : syscall.Stat_t) (depth : nat) :
  os_Lstat w "/" = Ok fi ->
  os.Sys fi = Some st ->
  path.Dir "/" = "/"
  /\ fs.MountRoot w (S depth) "/"
     = Some (Ret (if fs.isDotLustre w "/.lustre" then ("/", None)
                  else ("", Some (not_lustre "/")))).
Proof.
  intros Hp Hst. split; [reflexivity|].
  unfold fs.MountRoot. rewrite Hp. unfold fs.rootDevice. rewrite Hst. simpl.
  change (path.Dir "/") with "/". rewrite Hp. unfold fs.rootDevice. rewrite Hst. simpl.
  rewrite orb_true_r. change (path.Join ["/"; ".lustre"]) with "/.lustre".
  now destruct (fs.isDotLustre w "/.lustre").
Qed.

Lemma MountRoot_at_os_root_witness :
  os_Lstat worlds.lustre_at_root "/" = worlds.stat 7 true
  /\ fs.isDotLustre worlds.lustre_at_root "/.lustre" = true
  /\ fs.MountRoot worlds.lustre_at_root 1 "/" = Some (Ret ("/", None)).
Proof.
  split; [reflexivity|]. split; [reflexivity|].
  exact (proj2 (MountRoot_at_os_root worlds.lustre_at_root _ _ 0 eq_refl eq_refl)).
Defined.

(** *** The sentinel *)

(** C8: when the stat of the sentinel fails, or it is not a directory, or
    the lookup of its identifier fails, or the identifier is not that of
    [.lustre], [isDotLustre] is [false]; it has no other result than a
    boolean. *)
Theorem isDotLustre_failure (w : World) (dir : string) :
  sentinel_fails w dir -> fs.isDotLustre w dir = false.
Proof.
  unfold fs.isDotLustre.
  intros [e He|fi Hfi Hdir|e He|fid Hfid Hp].
  - now rewrite He.
  - now rewrite Hfi, Hdir.
  - rewrite He. destruct (os_Lstat w dir) as [fi|]; [|reflexivity].
    now destruct (os.IsDir fi).
  - rewrite Hfid, Hp. destruct (os_Lstat w dir) as [fi|]; [|reflexivity].
    now destruct (os.IsDir fi).
Qed.

Lemma isDotLustre_failure_witness :
  fs.isDotLustre worlds.lustre "/mnt/fs/a/.lustre" = false.
Proof.
  apply isDotLustre_failure.
  exact (stat_fails worlds.lustre "/mnt/fs/a/.lustre" _ eq_refl).
Defined.

(** *** A platform without the device *)

(** C9: on a file information without [syscall.Stat_t], [rootDevice]
    panics and returns no device; so do the walkers that meet it, which
    decide nothing. *)
Theorem rootDevice_without_stat (fi : os.FileInfo) :
  os.Sys fi = None ->
  fs.rootDevice fi = Panic "no stat available"
  /\ (forall w depth p,
        os_Lstat w p = Ok fi ->
        fs.MountRoot w depth p = Some (Panic "no stat available"))
  /\ (forall w depth p,
        os_Lstat w (filepath.Clean p) = Ok fi ->
        fs.MountRelPath w depth p = Some (Panic "no stat available"))
  /\ (forall w depth dev p,
        os_Lstat w (path.Dir p) = Ok fi ->
        fs.findRoot w (S depth) dev p = Some (Panic "no stat available"))
  /\ (forall w depth dev p rel,
        os_Lstat w (path.Dir p) = Ok fi ->
        fs.findRelPath w (S depth) dev p rel = Some (Panic "no stat available")).
Proof.
  intros Hs.
  assert (Hp : fs.rootDevice fi = Panic "no stat available")
    by (unfold fs.rootDevice; now rewrite Hs).
  split; [exact Hp|]. repeat split.
  - intros w depth p Hfi. unfold fs.MountRoot. now rewrite Hfi, Hp.
  - intros w depth p Hfi. unfold fs.MountRelPath. now rewrite Hfi, Hp.
  - intros w depth dev p Hfi. simpl. now rewrite Hfi, Hp.
  - intros w depth dev p rel Hfi. simpl. now rewrite Hfi, Hp.
Qed.

Lemma rootDevice_without_stat_witness :
  os.Sys worlds.no_stat = None
  /\ fs.rootDevice worlds.no_stat = Panic "no stat available".
Proof.
  split; [reflexivity|].
  exact (proj1 (rootDevice_without_stat worlds.no_stat eq_refl)).
Defined.

(** *** The client identifier *)

(** C10: when the name of the mount has no ["-"], [MountID] panics on
    [elem[1]]; when it has one, [MountID] returns the first field as the
    name of the file system and the second as the identifier of the
    client, and no error. *)
Theorem MountID_fields (w : World) (mountPath id : string) :
  llapi_GetName w mountPath = Ok id ->
  (strings.has "-" id = false ->
   fs.MountID w mountPath = Panic "runtime error: index out of range [1] with length 1")
  /\ (strings.has "-" id = true ->
      exists e0 e1 rest,
        strings.Split id "-" = e0 :: e1 :: rest
        /\ fs.MountID w mountPath
           = Ret (Some {| status.FsName := e0; status.ClientID := e1 |}, None))
  /\ (forall c err,
        fs.MountID w mountPath = Ret (c, err) ->
        err = None
        /\ exists e0 e1 rest,
            strings.Split id "-" = e0 :: e1 :: rest
            /\ strings.Join (e0 :: e1 :: rest) "-" = id
            /\ c = Some {| status.FsName := e0; status.ClientID := e1 |}).
Proof.
  intros Hid. unfold fs.MountID. rewrite Hid. split; [|split].
  - intros H. now rewrite (Split_without_sep id "-" H).
  - intros H. destruct (Split_with_sep id "-" H) as (e0 & e1 & rest & ->). eauto.
  - intros c err. pose proof (concat_Split id "-") as Hj.
    destruct (strings.Split id "-") as [|e0 [|e1 rest]]; try discriminate.
    intros [= <- <-]. split; [reflexivity|]. exists e0, e1, rest. repeat split. exact Hj.
Qed.

Lemma MountID_fields_witness :
  llapi_GetName worlds.lustre "/mnt/odd" = Ok "lustre"
  /\ fs.MountID worlds.lustre "/mnt/odd"
     = Panic "runtime error: index out of range [1] with length 1".
Proof.
  split; [reflexivity|].
  exact (proj1 (MountID_fields worlds.lustre "/mnt/odd" "lustre" eq_refl) eq_refl).
Defined.

(** *** One open for each root *)

(** C7: the calls of [GetMdt] on one root, in turn, open the root until an
    open succeeds, and never after: when the open of call [j] is the first
    to succeed, the [j] calls before it and that call make one open each,
    the handle is then opened on the file that open returned, and every
    later call asks the client library with the descriptor of that file.
    With [j = 0], any number of calls make exactly one open. *)
Theorem GetMdt_opens_once
    (w : World) (s : fs.state) (root : fs.RootDir) (fids : list (Fid w))
    (j : nat) (file : os.File) :
  cache.wf s ->
  cache.unopened s root ->
  j < length fids ->
  (forall i, i < j -> exists e, os_Open w (length (fs.opens s) + i) root = Err e) ->
  os_Open w (length (fs.opens s) + j) root = Ok file ->
  exists rs s',
    fs.GetMdt_calls w root fids s = Ret (rs, s')
    /\ fs.opens s' = fs.opens s ++ replicate (S j) root
    /\ cache.handle s' root = Some (opened_handle root file)
    /\ length rs = length fids
    /\ drop j rs = map (answer w (Some file)) (drop j fids).
Proof.
  revert s fids. induction j as [|j IH]; intros s fids Hwf Hu Hj Hfail Hok.
  - destruct fids as [|fid fids]; [simpl in Hj; lia|].
    rewrite Nat.add_0_r in Hok.
    destruct (GetMdt_opens w root fid s file Hwf Hu Hok) as (s1 & Hrun & Hwf1 & Hh1 & Ho1).
    exists (answer w (Some file) fid :: map (answer w (Some file)) fids), s1.
    split; [|split; [|split; [|split]]].
    + simpl. unfold fs.bind at 1. rewrite Hrun.
      unfold fs.bind at 1.
      now rewrite (GetMdt_calls_again w root fids s1 _ Hh1 eq_refl).
    + exact Ho1.
    + exact Hh1.
    + simpl. now rewrite length_map.
    + reflexivity.
  - destruct fids as [|fid fids]; [simpl in Hj; lia|].
    destruct (Hfail 0 ltac:(lia)) as [e He]. rewrite Nat.add_0_r in He.
    destruct (GetMdt_fails w root fid s e Hwf Hu He) as (s1 & Hrun & Hwf1 & Hu1 & Ho1).
    destruct (IH s1 fids Hwf1 Hu1) as (rs & s' & Hrun' & Ho' & Hh' & Hlen & Hrs).
    + simpl in Hj. lia.
    + intros i Hi. rewrite Ho1, length_app. simpl.
      replace (length (fs.opens s) + 1 + i) with (length (fs.opens s) + S i) by lia.
      apply Hfail. lia.
    + rewrite Ho1, length_app. simpl.
      now replace (length (fs.opens s) + 1 + j) with (length (fs.opens s) + S j) by lia.
    + exists ((0%Z, Some e) :: rs), s'.
      split; [|split; [|split; [|split]]].
      * simpl. unfold fs.bind at 1. rewrite Hrun.
        unfold fs.bind at 1. now rewrite Hrun'.
      * rewrite Ho', Ho1, <- app_assoc. reflexivity.
      * exact Hh'.
      * simpl. now rewrite Hlen.
      * exact Hrs.
Qed.

Lemma GetMdt_opens_once_witness :
  (cache.wf fs.init
   /\ cache.unopened fs.init "/mnt/fs"
   /\ os_Open worlds.lustre 0 "/mnt/fs" = Ok {| os.fd := 3 |})
  /\ exists rs s',
      fs.GetMdt_calls worlds.lustre "/mnt/fs" [false; true; false] fs.init = Ret (rs, s')
      /\ fs.opens s' = ["/mnt/fs"]
      /\ cache.handle s' "/mnt/fs" = Some (opened_handle "/mnt/fs" {| os.fd := 3 |})
      /\ length rs = 3
      /\ rs = [(0%Z, None); (0%Z, None); (0%Z, None)].
Proof.
  split; [split; [apply wf_init | split; [exact I | reflexivity]]|].
  apply (GetMdt_opens_once worlds.lustre fs.init "/mnt/fs" [false; true; false] 0
           {| os.fd := 3 |} wf_init I).
  - simpl. lia.
  - intros i Hi. lia.
  - reflexivity.
Defined.

(** * More of the code *)

Example Itoa_table :
  map strconv.Itoa [0; 7; -12; 305; -9223372036854775808]%Z
  = ["0"; "7"; "-12"; "305"; "-9223372036854775808"].
Proof. reflexivity. Qed.


(** ** More on the walkers *)

Module walker_more.
Import string_facts elements path_facts walker walker_facts.

Section Walk.
Variable w : World.

(** [findRoot] is [findRelPath] without the suffix. *)
Lemma findRoot_of_findRelPath depth dev q rel :
  fs.findRoot w depth dev q
  = match fs.findRelPath w depth dev q rel with
    | Some (Ret (root, _)) => Some (Ret root)
    | Some (Panic msg) => Some (Panic msg)
    | None => None
    end.
Proof.
  revert q rel. induction depth as [|depth IH]; intros q rel; [reflexivity|].
  simpl. destruct (os_Lstat w (path.Dir q)) as [fi|]; [|reflexivity].
  destruct (fs.rootDevice fi) as [d|msg]; [|reflexivity]. simpl.
  destruct (negb (Z.eqb d dev) || String.eqb q "/").
  - now destruct (fs.isDotLustre w _).
  - apply IH.
Qed.

(** The three ways for a step of the walk to go. *)
Lemma step_cases_of dev q :
  inside w dev q = true
  \/ boundary w dev q = true
  \/ parent_fails w q = true
  \/ (exists fi, os_Lstat w (path.Dir q) = Ok fi /\ os.Sys fi = None).
Proof.
  unfold inside, boundary, parent_fails.
  destruct (os_Lstat w (path.Dir q)) as [fi|]; [|auto].
  destruct (os.Sys fi) as [st|] eqn:Hst; [|right; right; right; eauto].
  destruct (Z.eqb (syscall.Dev st) dev), (String.eqb q "/"); auto.
Qed.

Lemma findRoot_no_stat depth dev q fi :
  os_Lstat w (path.Dir q) = Ok fi -> os.Sys fi = None ->
  fs.findRoot w (S depth) dev q = Some (Panic "no stat available").
Proof. intros H1 H2. simpl. rewrite H1. unfold fs.rootDevice. now rewrite H2. Qed.

(** A walk that returns the empty root has met a parent that is not
    stat-able, or a boundary without the sentinel. *)
Lemma findRoot_empty depth dev p :
  p <> "" ->
  fs.findRoot w depth dev p = Some (Ret "") ->
  exists n, n < depth /\ climbs w dev n p = true
            /\ (parent_fails w (ancestor n p) = true
                \/ (boundary w dev (ancestor n p) = true
                    /\ fs.isDotLustre w (path.Join [ancestor n p; ".lustre"]) = false)).
Proof.
  revert p. induction depth as [|depth IH]; intros p Hp H; [discriminate|].
  destruct (step_cases_of dev p) as [Hi|[Hb|[Hf|(fi & Hfi & Hst)]]].
  - rewrite findRoot_inside in H by assumption.
    destruct (IH _ (Clean_not_empty _) H) as (n & Hn & Hc & Hend).
    exists (S n). split; [lia|]. split; [simpl; now rewrite Hi | exact Hend].
  - exists 0. split; [lia|]. split; [reflexivity|]. right. split; [exact Hb|].
    rewrite findRoot_boundary in H by assumption. simpl.
    destruct (fs.isDotLustre w (path.Join [p; ".lustre"])); [|reflexivity].
    injection H as H. congruence.
  - exists 0. split; [lia|]. split; [reflexivity|]. now left.
  - rewrite (findRoot_no_stat depth dev p fi Hfi Hst) in H. discriminate.
Qed.

Lemma boundary_not_found n depth dev p :
  climbs w dev n p = true ->
  parent_fails w (ancestor n p) = true
  \/ (boundary w dev (ancestor n p) = true
      /\ fs.isDotLustre w (path.Join [ancestor n p; ".lustre"]) = false) ->
  fs.findRoot w (n + S depth) dev p = Some (Ret "").
Proof.
  intros Hc [Hf|[Hb Hd]]; rewrite findRoot_climbs by assumption.
  - now apply findRoot_parent_fails.
  - rewrite findRoot_boundary by assumption. now rewrite Hd.
Qed.

End Walk.

End walker_more.

Import walker_more.

(** X1: [MountRoot] and [MountRelPath] return an empty root exactly when
    they return an error, and [MountRelPath] then returns an empty relative
    path as well. *)
Theorem root_or_error (w : World) (depth : nat) (p : string) :
  (forall root err,
      fs.MountRoot w depth p = Some (Ret (root, err)) ->
      (root = "" <-> err <> None))
  /\ (forall root rel err,
        fs.MountRelPath w depth p = Some (Ret (root, rel, err)) ->
        (root = "" <-> err <> None) /\ (err <> None -> rel = "")).
Proof.
  split.
  - intros root err. unfold fs.MountRoot.
    destruct (os_Lstat w p) as [fi|].
    + destruct (fs.rootDevice fi) as [dev|]; [|discriminate]. simpl.
      destruct (fs.findRoot w depth dev p) as [[mnt|]|]; [|discriminate|discriminate].
      simpl. destruct (String.eqb_spec mnt "") as [->|Hm]; intros [= <- <-].
      * split; [discriminate | reflexivity].
      * split; [intros ->; congruence | congruence].
    + intros [= <- <-]. split; [discriminate | reflexivity].
  - intros root rel err. unfold fs.MountRelPath.
    destruct (os_Lstat w (filepath.Clean p)) as [fi|].
    + destruct (fs.rootDevice fi) as [dev|]; [|discriminate]. simpl.
      destruct (fs.findRelPath w depth dev (filepath.Clean p) [])
        as [[[mnt r]|]|]; [|discriminate|discriminate].
      simpl. destruct (String.eqb_spec mnt "") as [->|Hm]; intros [= <- <- <-].
      * repeat split; (discriminate || reflexivity).
      * repeat split; congruence.
    + intros [= <- <- <-]. repeat split; (discriminate || reflexivity).
Qed.

(** X2: [MountRoot] of a clean path and [MountRelPath] agree: the same
    root, the same error, the same panic, and neither returns at a depth
    where the other does not. *)
Theorem MountRoot_of_MountRelPath (w : World) (depth : nat) (p : string) :
  fs.MountRoot w depth (filepath.Clean p)
  = match fs.MountRelPath w depth p with
    | Some (Ret (root, _, err)) => Some (Ret (root, err))
    | Some (Panic msg) => Some (Panic msg)
    | None => None
    end.
Proof.
  unfold fs.MountRoot, fs.MountRelPath.
  destruct (os_Lstat w (filepath.Clean p)) as [fi|]; [|reflexivity].
  destruct (fs.rootDevice fi) as [dev|]; [|reflexivity]. simpl.
  rewrite (findRoot_of_findRelPath w depth dev (filepath.Clean p) []).
  destruct (fs.findRelPath w depth dev (filepath.Clean p) []) as [[[mnt r]|]|];
    [|reflexivity|reflexivity].
  simpl. now destruct (String.eqb mnt "").
Qed.

(** X3: a path whose parent is stat-able and on the same device, and
    which is not ["/"], has the root of its parent: [MountRoot] returns a
    root for the one exactly when it returns it for the other, one call
    deeper, and reports the one as not on Lustre exactly when it reports the
    other. *)
Theorem MountRoot_parent
    (w : World) (p : string) (fi : os.FileInfo) (st : syscall.Stat_t) (depth : nat) :
  os_Lstat w p = Ok fi ->
  os.Sys fi = Some st ->
  inside w (syscall.Dev st) p = true ->
  (forall root,
      fs.MountRoot w (S depth) p = Some (Ret (root, None))
      <-> fs.MountRoot w depth (path.Dir p) = Some (Ret (root, None)))
  /\ (fs.MountRoot w (S depth) p = Some (Ret ("", Some (not_lustre p)))
      <-> fs.MountRoot w depth (path.Dir p)
          = Some (Ret ("", Some (not_lustre (path.Dir p))))).
Proof.
  intros Hp Hst Hi.
  assert (Hrun : fs.findRoot w (S depth) (syscall.Dev st) p
                 = fs.findRoot w depth (syscall.Dev st) (path.Dir p))
    by now apply findRoot_inside.
  unfold fs.MountRoot. rewrite Hp. unfold fs.rootDevice at 1 3. rewrite Hst.
  unfold walk_lift, walk_bind at 1 3 5 7. rewrite Hrun. clear Hrun.
  unfold inside in Hi.
  destruct (os_Lstat w (path.Dir p)) as [fi'|]; [|discriminate].
  unfold fs.rootDevice. destruct (os.Sys fi') as [st'|]; [|discriminate].
  apply andb_true_iff in Hi as [Hd _]. apply Z.eqb_eq in Hd. rewrite Hd. simpl.
  destruct (fs.findRoot w depth (syscall.Dev st) (path.Dir p)) as [[mnt|]|]; simpl.
  - destruct (String.eqb mnt ""); split; [intros root| |intros root|]; split; intros H;
      (reflexivity || discriminate H || exact H).
  - split; [intros root|]; split; discriminate.
  - split; [intros root|]; split; discriminate.
Qed.

Lemma MountRoot_parent_witness :
  (os_Lstat worlds.lustre "/mnt/fs/a/b" = worlds.stat 2 true
   /\ inside worlds.lustre 2 "/mnt/fs/a/b" = true)
  /\ fs.MountRoot worlds.lustre 2 (path.Dir "/mnt/fs/a/b") = Some (Ret ("/mnt/fs", None))
  /\ fs.MountRoot worlds.lustre 3 "/mnt/fs/a/b" = Some (Ret ("/mnt/fs", None)).
Proof.
  split; [split; reflexivity|]. split; [reflexivity|].
  apply (proj1 (MountRoot_parent worlds.lustre "/mnt/fs/a/b" _ _ 2
                  eq_refl eq_refl eq_refl)).
  reflexivity.
Defined.

(** X4: [MountRoot] returns a root without error exactly when the walk
    climbs some [n] times through parents on the device of the path, then
    meets a change of device or ["/"], and the directory reached holds a
    valid sentinel; the root is the directory reached. *)
Theorem MountRoot_succeeds_iff
    (w : World) (p : string) (fi : os.FileInfo) (st : syscall.Stat_t)
    (depth : nat) (root : fs.RootDir) :
  os_Lstat w p = Ok fi ->
  os.Sys fi = Some st ->
  p <> "" ->
  fs.MountRoot w depth p = Some (Ret (root, None))
  <-> exists n, n < depth
                /\ on_mount w (syscall.Dev st) n p = true
                /\ root = ancestor n p.
Proof.
  intros Hp Hst Hne. unfold fs.MountRoot. rewrite Hp. unfold fs.rootDevice. rewrite Hst.
  simpl. split.
  - destruct (fs.findRoot w depth (syscall.Dev st) p) as [[mnt|]|] eqn:Hf;
      [|discriminate|discriminate].
    simpl. destruct (String.eqb_spec mnt "") as [|Hm]; [discriminate|].
    intros [= ->]. now apply (findRoot_root w depth).
  - intros (n & Hn & Hm & ->).
    replace depth with (n + S (depth - S n)) by lia.
    rewrite on_mount_findRoot by assumption. simpl.
    destruct (String.eqb_spec (ancestor n p) "") as [E|_]; [|reflexivity].
    now apply ancestor_not_empty in E.
Qed.

Lemma MountRoot_succeeds_iff_witness :
  (os_Lstat worlds.lustre "/mnt/fs/a/b" = worlds.stat 2 true
   /\ on_mount worlds.lustre 2 2 "/mnt/fs/a/b" = true)
  /\ fs.MountRoot worlds.lustre 3 "/mnt/fs/a/b" = Some (Ret ("/mnt/fs", None)).
Proof.
  split; [split; reflexivity|].
  apply (MountRoot_succeeds_iff worlds.lustre "/mnt/fs/a/b" _ _ 3 "/mnt/fs"
           eq_refl eq_refl).
  - discriminate.
  - exists 2. split; [lia|]. split; reflexivity.
Defined.

(** X5: [MountRoot] reports a stat-able path as not on Lustre exactly when
    the walk climbs some [n] times and then either cannot stat the parent
    or meets its first change of device (or ["/"]) at a directory without a
    valid sentinel: it does not look above the first boundary. *)
Theorem MountRoot_not_lustre_iff
    (w : World) (p : string) (fi : os.FileInfo) (st : syscall.Stat_t) (depth : nat) :
  os_Lstat w p = Ok fi ->
  os.Sys fi = Some st ->
  p <> "" ->
  fs.MountRoot w depth p = Some (Ret ("", Some (not_lustre p)))
  <-> exists n, n < depth
                /\ climbs w (syscall.Dev st) n p = true
                /\ (parent_fails w (ancestor n p) = true
                    \/ (boundary w (syscall.Dev st) (ancestor n p) = true
                        /\ fs.isDotLustre w (path.Join [ancestor n p; ".lustre"]) = false)).
Proof.
  intros Hp Hst Hne. unfold fs.MountRoot. rewrite Hp. unfold fs.rootDevice. rewrite Hst.
  simpl. split.
  - destruct (fs.findRoot w depth (syscall.Dev st) p) as [[mnt|]|] eqn:Hf;
      [|discriminate|discriminate].
    simpl. destruct (String.eqb_spec mnt "") as [->|Hm]; [|discriminate].
    intros _. now apply (findRoot_empty w depth).
  - intros (n & Hn & Hc & Hend).
    replace depth with (n + S (depth - S n)) by lia.
    now rewrite (boundary_not_found w n _ _ p Hc Hend).
Qed.

Lemma MountRoot_not_lustre_iff_witness :
  (os_Lstat worlds_nested.nested "/data/x" = worlds.stat 9 true
   /\ climbs worlds_nested.nested 9 1 "/data/x" = true
   /\ boundary worlds_nested.nested 9 "/data" = true
   /\ fs.isDotLustre worlds_nested.nested "/data/.lustre" = false
   /\ fs.isDotLustre worlds_nested.nested "/.lustre" = true)
  /\ fs.MountRoot worlds_nested.nested 2 "/data/x"
     = Some (Ret ("", Some (not_lustre "/data/x"))).
Proof.
  split; [repeat split|].
  apply (MountRoot_not_lustre_iff worlds_nested.nested "/data/x" _ _ 2 eq_refl eq_refl).
  - discriminate.
  - exists 1. split; [lia|]. split; [reflexivity|]. right. split; reflexivity.
Defined.

(** X6: [MountRelPath] does not depend on how the path is spelled: a path
    and its clean form have the same result. *)
Theorem MountRelPath_of_Clean (w : World) (depth : nat) (p : string) :
  fs.MountRelPath w depth (filepath.Clean p) = fs.MountRelPath w depth p.
Proof.
  unfold fs.MountRelPath, filepath.Clean. now rewrite Clean_idempotent.
Qed.

(** [isDotLustre] is [true] exactly when the stat succeeds on a
    directory, the lookup of its identifier succeeds, and the identifier is
    that of [.lustre]. *)
Lemma isDotLustre_true_iff (w : World) (dir : string) :
  fs.isDotLustre w dir = true
  <-> exists fi fid,
        os_Lstat w dir = Ok fi /\ os.IsDir fi = true
        /\ LookupFid w dir = Ok fid /\ Fid_IsDotLustre w fid = true.
Proof.
  unfold fs.isDotLustre. split.
  - destruct (os_Lstat w dir) as [fi|]; [|discriminate].
    destruct (os.IsDir fi) eqn:Hd; [|discriminate].
    destruct (LookupFid w dir) as [fid|]; [|discriminate].
    intros H. now exists fi, fid.
  - intros (fi & fid & -> & -> & -> & H). exact H.
Qed.


(** ** More on paths *)

Module path_more.
Import string_facts elements path_facts walker walker_facts.

Lemma Base_snd q : clean_form q -> q <> "/" -> path.Base q = snd (path.Split q).
Proof.
  intros [->|Hf] Hq; [congruence|].
  destruct (path_Split_cases q) as [[Hs Hsp]|(d & f & Hs & -> & Hsp)].
  - rewrite Hsp in *. simpl in *. now apply (Base_file "" q).
  - rewrite Hsp in *. simpl in *.
    change (String path.slash f) with ("/" +:+ f).
    rewrite <- append_assoc. apply Base_file; try assumption.
    rewrite append_assoc. exact Hsp.
Qed.

Lemma Split_render_last rt out c :
  Forall slashless (out ++ [c]) ->
  snd (path.Split (path.render rt (out ++ [c]))) = c.
Proof.
  intros Hs. apply Forall_app in Hs as [_ Hs].
  inversion Hs as [|? ? Hsc _]; subst.
  unfold path.render. rewrite concat_snoc.
  destruct rt.
  - destruct out as [|x out].
    + change (snd (path.Split ("" +:+ String path.slash c)) = c).
      now rewrite path_Split_app.
    + change (snd (path.Split (String path.slash (String.concat "/" (x :: out))
                               +:+ String path.slash c)) = c).
      now rewrite path_Split_app.
  - destruct out as [|x out].
    + change (snd (path.Split c) = c). now rewrite path_Split_slashless.
    + change (snd (path.Split (String.concat "/" (x :: out) +:+ String path.slash c)) = c).
      now rewrite path_Split_app.
Qed.

(** A rooted clean path is made of its elements, which are names. *)
Lemma rooted_clean q :
  path.rooted q = true -> path.Clean q = q ->
  q = path.render true (rev (elems q)).
Proof.
  intros Hr Hc. rewrite <- Hc at 1.
  rewrite Clean_unfold by (destruct q; discriminate). now rewrite Hr.
Qed.

(** Below ["/"], the base of a rooted clean path is a name. *)
Lemma Base_name q :
  path.rooted q = true -> path.Clean q = q -> q <> "/" -> name (path.Base q).
Proof.
  intros Hr Hc Hq.
  assert (Hcf : clean_form q) by (rewrite <- Hc; apply Clean_clean_form).
  rewrite (Base_snd q Hcf Hq).
  pose proof (elems_name q Hr) as Hn. pose proof (elems_slashless q) as Hs.
  rewrite (rooted_clean q Hr Hc) in Hq |- *.
  destruct (elems q) as [|c N]; [now contradiction Hq|].
  simpl rev. rewrite Split_render_last.
  - now inversion Hn.
  - change (rev N ++ [c]) with (rev (c :: N)). now apply Forall_rev.
Qed.

Lemma Split_concat_slash ns :
  ns <> [] -> Forall slashless ns ->
  strings.Split (String.concat "/" ns) path.slash = ns.
Proof. exact (Split_concat ns path.slash). Qed.

Lemma names_kept ns : Forall name ns -> Forall kept ns.
Proof. apply List.Forall_impl. intros c (H1 & H2 & _). now split. Qed.

(** A relative path made of names is clean. *)
Lemma Clean_names ns :
  ns <> [] -> Forall name ns -> Forall slashless ns ->
  path.Clean (String.concat "/" ns) = String.concat "/" ns
  /\ path.rooted (String.concat "/" ns) = false
  /\ String.concat "/" ns <> "".
Proof.
  intros Hne Hn Hs. destruct ns as [|c ns]; [congruence|].
  assert (Hc : c <> "") by (inversion Hn as [|? ? [H _] _]; exact H).
  assert (Hnz : String.concat "/" (c :: ns) <> "") by now apply concat_not_empty.
  assert (Hr : path.rooted (String.concat "/" (c :: ns)) = false).
  { inversion Hs as [|? ? Hsc _]; subst. destruct ns.
    - now apply rooted_slashless.
    - rewrite concat_cons, rooted_append by assumption. now apply rooted_slashless. }
  split; [|split; assumption].
  rewrite Clean_unfold by assumption. unfold elems. rewrite Hr.
  rewrite Split_concat_slash by (discriminate || assumption).
  rewrite <- (rev_involutive (c :: ns)) at 1.
  rewrite clean_elems_names by now apply Forall_rev.
  now rewrite app_nil_r, rev_involutive.
Qed.

Lemma concat_app a b :
  a <> [] -> b <> [] ->
  String.concat "/" (a ++ b) = String.concat "/" a +:+ String path.slash (String.concat "/" b).
Proof.
  intros Ha Hb. induction a as [|x a IH]; [congruence|].
  destruct a as [|y a].
  - destruct b as [|z b]; [congruence | reflexivity].
  - change ((x :: y :: a) ++ b) with (x :: y :: (a ++ b)).
    rewrite !concat_cons. change (y :: (a ++ b)) with ((y :: a) ++ b).
    rewrite IH by discriminate. now rewrite !append_assoc.
Qed.

(** The elements of a rooted clean path followed by names: the path they
    make is clean, and is the path, a slash unless the path is ["/"], and
    the names joined. *)
Lemma Clean_rooted_names q ns :
  path.rooted q = true -> path.Clean q = q ->
  ns <> [] -> Forall name ns -> Forall slashless ns ->
  path.Clean (q +:+ String path.slash (String.concat "/" ns))
  = if String.eqb q "/" then q +:+ String.concat "/" ns
    else q +:+ String path.slash (String.concat "/" ns).
Proof.
  intros Hr Hc Hne Hn Hs.
  rewrite Clean_app by (destruct q; discriminate).
  rewrite Hr, Split_concat_slash by assumption.
  rewrite <- (rev_involutive ns) at 1.
  rewrite clean_elems_names by now apply Forall_rev.
  rewrite rev_app_distr, rev_involutive.
  pose proof (elems_kept q) as Hk. apply Forall_rev in Hk.
  pose proof (rooted_clean q Hr Hc) as Hq.
  remember (rev (elems q)) as out eqn:E. clear E Hr Hc. subst q.
  destruct out as [|c out].
  - reflexivity.
  - assert (Hq : String.eqb (path.render true (c :: out)) "/" = false).
    { apply String.eqb_neq. unfold path.render. intros [= H].
      inversion Hk as [|? ? [Hc' _] _]; subst.
      now apply (concat_not_empty c out). }
    rewrite Hq. unfold path.render.
    rewrite concat_app by (discriminate || assumption). reflexivity.
Qed.

Section Walk.
Variable w : World.

(** The walk from a rooted clean path goes through rooted clean paths and
    leaves names behind. *)
Lemma climbs_names n dev q rel :
  path.rooted q = true -> path.Clean q = q ->
  Forall name rel -> climbs w dev n q = true ->
  path.rooted (ancestor n q) = true
  /\ path.Clean (ancestor n q) = ancestor n q
  /\ Forall name (suffix n q rel).
Proof.
  revert q rel. induction n as [|n IH]; intros q rel Hr Hc Hrel Hcl; [now repeat split|].
  simpl in Hcl. apply andb_true_iff in Hcl as [Hi Hcl].
  pose proof (inside_not_root w dev q Hi) as Hq.
  destruct (Dir_shorter q Hr Hq) as [Hr' _].
  apply (IH (path.Dir q) (path.Base q :: rel)); try assumption.
  - apply Clean_idempotent.
  - constructor; [now apply Base_name | assumption].
Qed.

End Walk.

End path_more.

Import path_more.

(** X7: for a rooted path on Lustre, what [MountRelPath] returns spells the
    clean path: the root is rooted and clean, the relative path is empty
    when the clean path is the root, and otherwise is a clean path that is
    not rooted, and the clean path is the root, a slash (unless the root
    is ["/"]), and the relative path. *)
Theorem MountRelPath_rooted
    (w : World) (depth : nat) (p : string) (root : fs.RootDir) (rel : string) :
  path.rooted p = true ->
  fs.MountRelPath w depth p = Some (Ret (root, rel, None)) ->
  path.rooted root = true
  /\ path.Clean root = root
  /\ path.rooted rel = false
  /\ (rel = "" -> filepath.Clean p = root)
  /\ (rel <> "" ->
      path.Clean rel = rel
      /\ filepath.Clean p
         = if String.eqb root "/" then root +:+ rel else root +:+ "/" +:+ rel).
Proof.
  intros Hr Hrun.
  pose proof (MountRelPath_sound w depth p root rel Hrun) as Hj.
  revert Hrun Hj. unfold fs.MountRelPath, filepath.Clean.
  assert (Hp : p <> "") by (destruct p; discriminate).
  assert (HrP : path.rooted (path.Clean p) = true) by now rewrite rooted_Clean.
  destruct (os_Lstat w (path.Clean p)) as [fi|]; [|discriminate].
  destruct (fs.rootDevice fi) as [dev|]; [|discriminate]. simpl.
  destruct (fs.findRelPath w depth dev (path.Clean p) []) as [[[root' rel']|]|] eqn:Hf;
    [|discriminate|discriminate].
  simpl. destruct (String.eqb_spec root' "") as [|Hroot]; [discriminate|].
  intros [= -> ->] Hj.
  destruct (findRelPath_root w _ _ _ _ _ _ Hf Hroot) as (n & _ & Hm & -> & ->).
  unfold on_mount in Hm. apply andb_true_iff in Hm as [Hm _].
  apply andb_true_iff in Hm as [Hc _].
  destruct (climbs_names w n dev (path.Clean p) [] HrP (Clean_idempotent p)
              (List.Forall_nil _) Hc) as (Hrr & Hrc & Hnames).
  destruct (climbs_joined w n dev (path.Clean p) [] (Clean_clean_form p)
              (List.Forall_nil _) Hc) as [Helem _].
  pose proof (elem_Forall_slashless _ Helem) as Hsl.
  set (root := ancestor n (path.Clean p)) in *.
  set (sfx := suffix n (path.Clean p) []) in *.
  split; [exact Hrr|]. split; [exact Hrc|].
  destruct sfx as [|c sfx'] eqn:Esfx.
  - change (path.Join []) with "" in *.
    split; [reflexivity|]. split; [|congruence].
    intros _. rewrite <- Hj. unfold fs.Join.
    change (path.Join [""]) with "".
    rewrite Join_pair by assumption. simpl. now rewrite Hrc.
  - destruct (Clean_names (c :: sfx') ltac:(discriminate) Hnames Hsl) as (Hcl & Hnr & Hnz).
    assert (HJ : path.Join (c :: sfx') = String.concat "/" (c :: sfx')).
    { rewrite Join_not_empty; [exact Hcl | discriminate | now apply elem_Forall_not_empty]. }
    rewrite HJ in *.
    split; [exact Hnr|]. split; [congruence|]. intros _. split; [exact Hcl|].
    rewrite <- Hj. unfold fs.Join.
    rewrite (Join_not_empty [String.concat "/" (c :: sfx')]);
      [|discriminate | constructor; [assumption | constructor]].
    change (String.concat "/" [String.concat "/" (c :: sfx')])
      with (String.concat "/" (c :: sfx')).
    rewrite Hcl, Join_pair by assumption.
    destruct (String.eqb_spec (String.concat "/" (c :: sfx')) "") as [E|_]; [congruence|].
    rewrite Clean_rooted_names by (discriminate || assumption).
    destruct (String.eqb root "/"); reflexivity.
Qed.

Lemma MountRelPath_rooted_witness :
  (path.rooted "/mnt/fs//a/b/../b/c" = true
   /\ fs.MountRelPath worlds.lustre 4 "/mnt/fs//a/b/../b/c"
      = Some (Ret ("/mnt/fs", "a/b/c", None)))
  /\ filepath.Clean "/mnt/fs//a/b/../b/c" = "/mnt/fs" +:+ "/" +:+ "a/b/c".
Proof.
  split; [split; reflexivity|].
  destruct (MountRelPath_rooted worlds.lustre 4 "/mnt/fs//a/b/../b/c" "/mnt/fs" "a/b/c"
              eq_refl eq_refl) as (_ & _ & _ & _ & H).
  apply H. discriminate.
Defined.

(** X8: [RootDir.Join] on a root that is not empty returns a clean path
    that is not empty and is rooted exactly when the root is, and the clean
    form of the root when it is given no argument. The empty root is
    ignored: the result is [path.Join] of the arguments alone, which is the
    clean form of a single argument that is not empty (rooted when the
    argument is), and the empty string when there is no argument. *)
Theorem RootDir_Join_clean (root : fs.RootDir) (args : list string) :
  (root <> "" ->
   fs.Join root args <> ""
   /\ path.Clean (fs.Join root args) = fs.Join root args
   /\ path.rooted (fs.Join root args) = path.rooted root
   /\ fs.Join root [] = path.Clean root)
  /\ fs.Join "" args = path.Join args
  /\ fs.Join "" [] = ""
  /\ (forall a, a <> "" ->
        fs.Join "" [a] = path.Clean a
        /\ path.rooted (fs.Join "" [a]) = path.rooted a).
Proof.
  assert (Hempty : forall l, fs.Join "" l = path.Join l).
  { intros l. unfold fs.Join.
    destruct (String.eqb_spec (path.Join l) "") as [E|Hj]; [now rewrite E|].
    unfold path.Join at 1. rewrite filter_cons_False by (intros H; now apply H).
    rewrite filter_cons_True by assumption.
    change (path.Clean (path.Join l) = path.Join l).
    unfold path.Join in *.
    destruct (filter (fun e => e <> "") l); [congruence | apply Clean_idempotent]. }
  split; [|split; [apply Hempty | split; [reflexivity|]]].
  - intros Hr. unfold fs.Join. rewrite !Join_pair by assumption.
    change (String.eqb (path.Join []) "") with true.
    destruct (String.eqb (path.Join args) "").
    + split; [apply Clean_not_empty|]. split; [apply Clean_idempotent|].
      split; [now apply rooted_Clean | reflexivity].
    + split; [apply Clean_not_empty|]. split; [apply Clean_idempotent|].
      split; [|reflexivity].
      rewrite rooted_Clean by now apply append_not_empty.
      now apply rooted_append.
  - intros a Ha. rewrite Hempty.
    assert (Hj : path.Join [a] = path.Clean a).
    { rewrite Join_not_empty; [reflexivity | discriminate | now constructor]. }
    rewrite Hj. split; [reflexivity | now apply rooted_Clean].
Qed.

Lemma RootDir_Join_clean_witness :
  ("/mnt/fs" <> ""
   /\ fs.Join "/mnt/fs" ["a/../b"; "c/"] = "/mnt/fs/b/c"
   /\ path.Clean "/mnt/fs/b/c" = "/mnt/fs/b/c"
   /\ fs.Join "/mnt/fs" [] = "/mnt/fs")
  /\ fs.Join "" ["/a/"] = "/a"
  /\ path.rooted (fs.Join "" ["/a/"]) = true.
Proof.
  destruct (RootDir_Join_clean "/mnt/fs" ["a/../b"; "c/"]) as [H1 [_ [_ H4]]].
  assert (Hr : ("/mnt/fs" : string) <> "") by discriminate.
  assert (Ha : ("/a/" : string) <> "") by discriminate.
  destruct (H1 Hr) as [_ [Hc [_ Hn]]].
  destruct (H4 "/a/" Ha) as [Hj Hrt].
  split; [split; [exact Hr | split; [reflexivity | split; [exact Hc | exact Hn]]]|].
  split; [exact Hj | exact Hrt].
Defined.

(** X9: the two fields that [MountID] returns have no ["-"], and the
    name of the mount starts with them: the first field, a ["-"], the
    second field, and then nothing or a ["-"] and the rest, which is
    dropped. *)
Theorem MountID_prefix (w : World) (mountPath id : string) (c : status.LustreClient) :
  llapi_GetName w mountPath = Ok id ->
  fs.MountID w mountPath = Ret (Some c, None) ->
  strings.has "-" (status.FsName c) = false
  /\ strings.has "-" (status.ClientID c) = false
  /\ exists tail,
      id = status.FsName c +:+ "-" +:+ status.ClientID c +:+ tail
      /\ (tail = "" \/ exists rest, tail = String "-" rest).
Proof.
  intros Hid. unfold fs.MountID. rewrite Hid.
  pose proof (concat_Split id "-") as Hj.
  pose proof (Split_elements id "-") as Hs.
  destruct (strings.Split id "-") as [|e0 [|e1 rest]]; try discriminate.
  intros [= <-]. simpl.
  apply Forall_cons in Hs as [H0 Hs]. apply Forall_cons in Hs as [H1 _].
  split; [exact H0|]. split; [exact H1|].
  destruct rest as [|e2 rest].
  - exists "". split; [|now left]. rewrite <- Hj, append_nil_r. reflexivity.
  - exists (String "-" (String.concat "-" (e2 :: rest))). split; [|right; eauto].
    rewrite <- Hj. reflexivity.
Qed.

Lemma MountID_prefix_witness :
  llapi_GetName worlds.lustre "/mnt/fs" = Ok "lustre-ffff88003b5d6800"
  /\ fs.MountID worlds.lustre "/mnt/fs"
     = Ret (Some {| status.FsName := "lustre"; status.ClientID := "ffff88003b5d6800" |}, None)
  /\ strings.has "-" "ffff88003b5d6800" = false.
Proof.
  split; [reflexivity|]. split; [reflexivity|].
  exact (proj1 (proj2 (MountID_prefix worlds.lustre "/mnt/fs" _ _ eq_refl eq_refl))).
Defined.


(** ** More on the cache *)

Module cache_more.
Import cache cache_facts session.

Section Calls.
Variable w : World.

Lemma frame_store s mnt root md o :
  wf s -> fs.openMount s !! root = Some mnt ->
  frame root s
    {| fs.openMount := fs.openMount s; fs.heap := <[mnt := md]> (fs.heap s); fs.opens := o |}.
Proof.
  intros Hwf Hroot root' Hne. unfold handle. simpl.
  destruct (fs.openMount s !! root') as [mnt'|] eqn:Hroot'; [|reflexivity].
  apply lookup_insert_ne. intros <-.
  destruct (Hwf root mnt Hroot) as (md0 & Hm0 & Hp0 & _).
  destruct (Hwf root' mnt Hroot') as (md1 & Hm1 & Hp1 & _). congruence.
Qed.

Lemma frame_opens s root o :
  frame root s
    {| fs.openMount := fs.openMount s; fs.heap := fs.heap s; fs.opens := o |}.
Proof. intros root' _. reflexivity. Qed.

Lemma frame_alloc s root md md' o :
  wf s -> fs.openMount s !! root = None ->
  frame root s
    {| fs.openMount := <[root := fresh (dom (fs.heap s))]> (fs.openMount s);
       fs.heap := <[fresh (dom (fs.heap s)) := md]>
                    (<[fresh (dom (fs.heap s)) := md']> (fs.heap s));
       fs.opens := o |}.
Proof.
  intros Hwf Hroot root' Hne. unfold handle. simpl.
  rewrite lookup_insert_ne by congruence.
  destruct (fs.openMount s !! root') as [mnt'|] eqn:Hroot'; [|reflexivity].
  destruct (Hwf root' mnt' Hroot') as (md1 & Hm1 & _).
  assert (Hf : fresh (dom (fs.heap s)) <> mnt').
  { intros E. pose proof (is_fresh (dom (fs.heap s))) as Hfr.
    apply not_elem_of_dom in Hfr. congruence. }
  now rewrite !lookup_insert_ne.
Qed.

(** The first call on a root, when the open succeeds. *)
Lemma GetMdt_opens_frame root fid s file :
  wf s -> unopened s root ->
  os_Open w (length (fs.opens s)) root = Ok file ->
  exists s',
    fs.GetMdt w root fid s = Ret (answer w (Some file) fid, s')
    /\ wf s'
    /\ handle s' root = Some (opened_handle root file)
    /\ fs.opens s' = fs.opens s ++ [root]
    /\ frame root s s'.
Proof.
  unfold unopened, handle. intros Hwf Hu Hopen.
  unfold fs.GetMdt, fs.bind, fs.getOpenMount, fs.RootDir.
  destruct (fs.openMount s !! root) as [mnt|] eqn:Hroot.
  - destruct (Hwf root mnt Hroot) as (md & Hm & Hp & Hl).
    rewrite Hm in Hu. rewrite <- Hp in Hopen.
    rewrite (mountDir_GetMdt_opens w mnt md fid s file Hm Hl Hu Hopen).
    eexists. split; [reflexivity|]. rewrite Hp. simpl. split; [|split; [|split]].
    + now apply (wf_store s mnt root).
    + now rewrite Hroot, lookup_insert_eq.
    + reflexivity.
    + now apply frame_store.
  - set (md := {| fs.path := root; fs.lock := false; fs.opened := false; fs.f := None |}).
    erewrite (mountDir_GetMdt_opens w _ md); simpl;
      [| apply lookup_insert_eq | reflexivity | reflexivity | exact Hopen].
    eexists. split; [reflexivity|]. simpl. split; [|split; [|split]].
    + rewrite insert_insert_eq. now apply wf_alloc.
    + now rewrite !lookup_insert_eq.
    + reflexivity.
    + now apply frame_alloc.
Qed.

(** The first call on a root, when the open fails. *)
Lemma GetMdt_fails_frame root fid s e :
  wf s -> unopened s root ->
  os_Open w (length (fs.opens s)) root = Err e ->
  exists s',
    fs.GetMdt w root fid s = Ret ((0%Z, Some e), s')
    /\ wf s'
    /\ unopened s' root
    /\ fs.opens s' = fs.opens s ++ [root]
    /\ frame root s s'.
Proof.
  unfold unopened, handle. intros Hwf Hu Hopen.
  unfold fs.GetMdt, fs.bind, fs.getOpenMount, fs.RootDir.
  destruct (fs.openMount s !! root) as [mnt|] eqn:Hroot.
  - destruct (Hwf root mnt Hroot) as (md & Hm & Hp & Hl).
    rewrite Hm in Hu. rewrite <- Hp in Hopen.
    rewrite (mountDir_GetMdt_fails w mnt md fid s e Hm Hl Hu Hopen).
    eexists. split; [reflexivity|]. rewrite Hp. simpl. split; [|split; [|split]].
    + now apply wf_opens.
    + now rewrite Hroot, Hm.
    + reflexivity.
    + apply frame_opens.
  - set (md := {| fs.path := root; fs.lock := false; fs.opened := false; fs.f := None |}).
    erewrite (mountDir_GetMdt_fails w _ md); simpl;
      [| apply lookup_insert_eq | reflexivity | reflexivity | exact Hopen].
    eexists. split; [reflexivity|]. simpl. split; [|split; [|split]].
    + now apply wf_alloc.
    + now rewrite !lookup_insert_eq.
    + reflexivity.
    + intros root' Hne. unfold handle. simpl.
      rewrite lookup_insert_ne by congruence.
      destruct (fs.openMount s !! root') as [mnt'|] eqn:Hroot'; [|reflexivity].
      destruct (Hwf root' mnt' Hroot') as (md1 & Hm1 & _).
      apply lookup_insert_ne. intros E.
      pose proof (is_fresh (dom (fs.heap s))) as Hfr.
      apply not_elem_of_dom in Hfr. congruence.
Qed.

(** The handle of a root is opened, or it is not. *)
Lemma opened_or_unopened s root :
  (exists md, handle s root = Some md /\ fs.opened md = true) \/ unopened s root.
Proof.
  unfold unopened. destruct (handle s root) as [md|]; [|now right].
  destruct (fs.opened md) eqn:Ho; [left; eauto | now right].
Qed.

Lemma frame_refl root s : frame root s s.
Proof. intros root' _. reflexivity. Qed.

End Calls.

End cache_more.

Import cache_more session.

(** X10: from a state in which every registered handle keeps its path and
    has its mutex free, a call of [GetMdt] returns: it does not panic and
    does not block on the mutex; it leaves such a state, so the mutex is
    released on the error paths too; it makes no open or one open, of the
    root it was called on; and it leaves the handles of the other roots as
    they were. *)
Theorem GetMdt_returns (w : World) (s : fs.state) (root : fs.RootDir) (fid : Fid w) :
  cache.wf s ->
  exists r s',
    fs.GetMdt w root fid s = Ret (r, s')
    /\ cache.wf s'
    /\ (fs.opens s' = fs.opens s \/ fs.opens s' = fs.opens s ++ [root])
    /\ frame root s s'.
Proof.
  intros Hwf. destruct (opened_or_unopened s root) as [(md & Hh & Ho)|Hu].
  - exists (answer w (fs.f md) fid), s.
    split; [now apply GetMdt_again|]. split; [assumption|]. split; [now left|].
    apply frame_refl.
  - destruct (os_Open w (length (fs.opens s)) root) as [file|e] eqn:Hopen.
    + destruct (GetMdt_opens_frame w root fid s file Hwf Hu Hopen)
        as (s' & Hrun & Hwf' & _ & Ho & Hfr).
      exists (answer w (Some file) fid), s'. auto.
    + destruct (GetMdt_fails_frame w root fid s e Hwf Hu Hopen)
        as (s' & Hrun & Hwf' & _ & Ho & Hfr).
      exists (0%Z, Some e), s'. auto.
Qed.

Lemma GetMdt_returns_witness :
  cache.wf fs.init
  /\ exists r s',
      fs.GetMdt worlds_nested.faulty "/mnt/bad" false fs.init = Ret (r, s')
      /\ cache.wf s'
      /\ (fs.opens s' = [] \/ fs.opens s' = ["/mnt/bad"])
      /\ frame "/mnt/bad" fs.init s'.
Proof.
  split; [apply wf_init|].
  exact (GetMdt_returns worlds_nested.faulty fs.init "/mnt/bad" false wf_init).
Defined.

(** X11: when the open of the root fails, [GetMdt] returns index 0 and the
    error of the open, unchanged; the handle stays unopened, so that the
    next call opens again. *)
Theorem GetMdt_open_error
    (w : World) (s : fs.state) (root : fs.RootDir) (fid : Fid w) (e : error) :
  cache.wf s ->
  cache.unopened s root ->
  os_Open w (length (fs.opens s)) root = Err e ->
  exists s',
    fs.GetMdt w root fid s = Ret ((0%Z, Some e), s')
    /\ cache.wf s'
    /\ cache.unopened s' root
    /\ fs.opens s' = fs.opens s ++ [root]
    /\ forall fid' file,
         os_Open w (S (length (fs.opens s))) root = Ok file ->
         exists s'',
           fs.GetMdt w root fid' s' = Ret (answer w (Some file) fid', s'')
           /\ fs.opens s'' = fs.opens s ++ [root; root].
Proof.
  intros Hwf Hu Hopen.
  destruct (GetMdt_fails_frame w root fid s e Hwf Hu Hopen)
    as (s' & Hrun & Hwf' & Hu' & Ho & _).
  exists s'. repeat split; try assumption.
  intros fid' file Hopen'.
  destruct (GetMdt_opens_frame w root fid' s' file Hwf' Hu') as (s'' & Hrun' & _ & _ & Ho' & _).
  - rewrite Ho, length_app. simpl. now rewrite Nat.add_1_r.
  - exists s''. split; [exact Hrun'|]. now rewrite Ho', Ho, <- app_assoc.
Qed.

Lemma GetMdt_open_error_witness :
  (cache.wf fs.init /\ cache.unopened fs.init "/mnt/bad"
   /\ os_Open worlds_nested.faulty 0 "/mnt/bad" = Err (SysError "open" "/mnt/bad" 13))
  /\ exists s',
      fs.GetMdt worlds_nested.faulty "/mnt/bad" false fs.init
      = Ret ((0%Z, Some (SysError "open" "/mnt/bad" 13)), s')
      /\ fs.opens s' = ["/mnt/bad"].
Proof.
  split; [split; [apply wf_init | split; [exact I | reflexivity]]|].
  destruct (GetMdt_open_error worlds_nested.faulty fs.init "/mnt/bad" false _
              wf_init I eq_refl) as (s' & Hrun & _ & _ & Ho & _).
  exists s'. split; [exact Hrun | exact Ho].
Defined.

(** X12: when the handle is opened and the query of the client library
    fails, [GetMdt] returns index 0 and the error of the query, unchanged,
    and changes nothing: the handle stays opened on the same file and no
    open is made. *)
Theorem GetMdt_query_error
    (w : World) (s : fs.state) (root : fs.RootDir) (fid : Fid w)
    (md : fs.mountDir) (e : error) :
  cache.handle s root = Some md ->
  fs.opened md = true ->
  llapi_GetMdtIndexByFid w (os.Fd (fs.f md)) fid = Err e ->
  fs.GetMdt w root fid s = Ret ((0%Z, Some e), s).
Proof.
  intros Hh Ho He. rewrite (cache_facts.GetMdt_again w root fid s md Hh Ho).
  unfold cache.answer. now rewrite He.
Qed.

Lemma GetMdt_query_error_witness :
  exists s,
    cache.handle s "/mnt/fs" = Some (cache.opened_handle "/mnt/fs" {| os.fd := 3 |})
    /\ fs.GetMdt worlds_nested.faulty "/mnt/fs" true s
       = Ret ((0%Z, Some (SysError "getmdtindex" "" 22)), s).
Proof.
  destruct (GetMdt_opens_frame worlds_nested.faulty "/mnt/fs" false fs.init {| os.fd := 3 |}
              cache_facts.wf_init I eq_refl) as (s & _ & _ & Hh & _).
  exists s. split; [exact Hh|].
  exact (GetMdt_query_error worlds_nested.faulty s "/mnt/fs" true _ _ Hh eq_refl eq_refl).
Defined.

(** X13: when every open succeeds, calls of [GetMdt] on any roots, in any
    order, open each root they are made on once: after the calls the opens
    have no root twice, and are the roots opened before and the roots of
    the calls. *)
Theorem GetMdt_sequence_opens_each_root_once
    (w : World) (s : fs.state) (calls : list (fs.RootDir * Fid w)) :
  consistent s ->
  (forall n name, exists file, os_Open w n name = Ok file) ->
  exists rs s',
    GetMdt_sequence w calls s = Ret (rs, s')
    /\ consistent s'
    /\ length rs = length calls
    /\ forall root,
         root ∈ fs.opens s'
         <-> root ∈ fs.opens s \/ exists fid, (root, fid) ∈ calls.
Proof.
  intros Hc Hopen. revert s Hc.
  induction calls as [|[root fid] calls IH]; intros s Hc.
  - exists [], s. split; [reflexivity|]. split; [exact Hc|]. split; [reflexivity|].
    intros root. split; [now left|].
    intros [H|(fid & H)]; [assumption | now apply elem_of_nil in H].
  - destruct Hc as (Hwf & Hnd & Hin).
    assert (Hstep : exists r s1,
               fs.GetMdt w root fid s = Ret (r, s1) /\ consistent s1
               /\ forall root', root' ∈ fs.opens s1 <-> root' ∈ fs.opens s \/ root' = root).
    { destruct (opened_or_unopened s root) as [(md & Hh & Ho)|Hu].
      - exists (cache.answer w (fs.f md) fid), s.
        split; [now apply cache_facts.GetMdt_again|]. split; [exact (conj Hwf (conj Hnd Hin))|].
        intros root'. split; [now left|]. intros [H| ->]; [assumption|].
        apply Hin. eauto.
      - destruct (Hopen (length (fs.opens s)) root) as [file Hf].
        destruct (GetMdt_opens_frame w root fid s file Hwf Hu Hf)
          as (s1 & Hrun & Hwf1 & Hh1 & Ho1 & Hfr).
        assert (Hnot : root ∉ fs.opens s).
        { intros H. apply Hin in H as (md & Hh & Ho).
          unfold cache.unopened in Hu. rewrite Hh in Hu. congruence. }
        exists (cache.answer w (Some file) fid), s1.
        split; [exact Hrun|]. split.
        + split; [exact Hwf1|]. split.
          * rewrite Ho1. apply NoDup_app. split; [exact Hnd|].
            split; [|apply NoDup_singleton].
            intros x Hx Hx'. apply list_elem_of_singleton in Hx'. now subst.
          * intros root'. rewrite Ho1, elem_of_app, list_elem_of_singleton.
            destruct (decide (root' = root)) as [->|Hne].
            -- split; [intros _|now right]. exists (cache.opened_handle root file).
               split; [exact Hh1 | reflexivity].
            -- rewrite (Hfr root' Hne), <- Hin. split; [intros [H|H]; [exact H | contradiction] | now left].
        + intros root'. now rewrite Ho1, elem_of_app, list_elem_of_singleton. }
    destruct Hstep as (r & s1 & Hrun & Hc1 & Hopens1).
    destruct (IH s1 Hc1) as (rs & s' & Hrun' & Hc' & Hlen & Hopens').
    exists (r :: rs), s'. split; [|split; [exact Hc'|split]].
    + simpl. unfold fs.bind at 1. rewrite Hrun.
      unfold fs.bind at 1. now rewrite Hrun'.
    + simpl. now rewrite Hlen.
    + intros root'. rewrite Hopens', Hopens1. split.
      * intros [[H| ->]|(fid' & H)]; [now left | right; exists fid; left | right; exists fid'; now right].
      * intros [H|(fid' & H)]; [now left; left|].
        apply elem_of_cons in H as [[= -> ->]|H]; [left; now right | right; eauto].
Qed.

Lemma consistent_init : consistent fs.init.
Proof.
  split; [apply cache_facts.wf_init|]. split; [constructor|].
  intros root. split.
  - intros H. now apply elem_of_nil in H.
  - intros (md & H & _). unfold cache.handle, fs.init in H. simpl in H.
    now rewrite lookup_empty in H.
Qed.

Lemma GetMdt_sequence_opens_each_root_once_witness :
  consistent fs.init
  /\ exists rs s',
      GetMdt_sequence worlds.lustre_at_root
        [("/a", false); ("/b", false); ("/a", true); ("/b", true); ("/a", false)] fs.init
      = Ret (rs, s')
      /\ consistent s'
      /\ length rs = 5.
Proof.
  split; [apply consistent_init|].
  destruct (GetMdt_sequence_opens_each_root_once worlds.lustre_at_root fs.init
              [("/a", false); ("/b", false); ("/a", true); ("/b", true); ("/a", false)]
              consistent_init) as (rs & s' & Hrun & Hc & Hlen & _).
  - intros n name. now exists {| os.fd := 3 |}.
  - exists rs, s'. auto.
Defined.


(** ** [lnet/tcp.go] *)

Module lnet_facts.

Lemma to_int_not_nil (z : Z) :
  Z.to_int z <> Decimal.Pos Decimal.Nil /\ Z.to_int z <> Decimal.Neg Decimal.Nil.
Proof.
  destruct z as [|p|p]; simpl; split; try discriminate;
    intros [= H]; now apply DecimalPos.Unsigned.to_uint_nonnil in H.
Qed.

(** [Atoi] reads back what [Itoa] prints. *)
Lemma Atoi_Itoa (z : Z) : strconv.Atoi (strconv.Itoa z) = Some z.
Proof.
  unfold strconv.Atoi, strconv.Itoa.
  destruct (to_int_not_nil z) as [H1 H2].
  rewrite DecimalString.NilZero.isi by assumption.
  now rewrite DecimalZ.of_to.
Qed.

Lemma Itoa_inj (a b : Z) : strconv.Itoa a = strconv.Itoa b -> a = b.
Proof.
  intros H. pose proof (Atoi_Itoa a) as Ha. rewrite H, Atoi_Itoa in Ha. congruence.
Qed.

End lnet_facts.

(** X14: the name of the network of a [TcpNid] is ["tcp"] and the driver
    instance in decimal: two of them have the same name exactly when they
    have the same driver instance, whatever their addresses, and the
    instance is read back from the name. *)
Theorem LNet_names (t1 t2 : lnet.TcpNid) :
  (lnet.LNet t1 = lnet.LNet t2 <-> lnet.driverInstance t1 = lnet.driverInstance t2)
  /\ lnet.LNet t1 = lnet.Driver t1 +:+ strconv.Itoa (lnet.driverInstance t1)
  /\ strconv.Atoi (String.substring 3 (String.length (lnet.LNet t1) - 3) (lnet.LNet t1))
     = Some (lnet.driverInstance t1).
Proof.
  unfold lnet.LNet, lnet.Driver. split; [|split; [reflexivity|]].
  - split.
    + intros H. apply lnet_facts.Itoa_inj. now injection H.
    + now intros ->.
  - set (d := strconv.Itoa (lnet.driverInstance t1)).
    assert (Hs : forall s, String.substring 0 (String.length s) s = s)
      by (induction s as [|c s IH]; simpl; [reflexivity | now rewrite IH]).
    change (String.length ("tcp" +:+ d)) with (3 + String.length d).
    replace (3 + String.length d - 3) with (String.length d) by lia.
    change (String.substring 3 (String.length d) ("tcp" +:+ d))
      with (String.substring 0 (String.length d) d).
    rewrite Hs. apply lnet_facts.Atoi_Itoa.
Qed.

(** [newTcpNid] returns a [TcpNid] and no error exactly when
    [net.ParseIP] accepts the address, and otherwise no [TcpNid] and an
    error that quotes the address. *)
Lemma newTcpNid_result (nw : Net) (address : string) (driverInstance : Z) :
  (forall ip,
      net_ParseIP nw address = Some ip ->
      lnet.newTcpNid nw address driverInstance
      = (Some {| lnet.IPAddress := Some ip; lnet.driverInstance := driverInstance |}, None))
  /\ (net_ParseIP nw address = None ->
      lnet.newTcpNid nw address driverInstance
      = (None, Some (Errorf (fmt_q nw address +:+ " is not a valid IP address")))).
Proof. unfold lnet.newTcpNid. split; now intros; subst; rewrite ?H. Qed.

(** X15: two [TcpNid] that [newTcpNid] returns hold the addresses that
    [net.ParseIP] read, which are not nil, and are on the same network
    exactly when they were made for the same driver instance. *)
Theorem newTcpNid_networks
    (nw : Net) (a1 a2 : string) (d1 d2 : Z) (t1 t2 : lnet.TcpNid) :
  lnet.newTcpNid nw a1 d1 = (Some t1, None) ->
  lnet.newTcpNid nw a2 d2 = (Some t2, None) ->
  lnet.Address t1 = net_ParseIP nw a1
  /\ lnet.Address t2 = net_ParseIP nw a2
  /\ lnet.Address t1 <> None
  /\ lnet.Address t2 <> None
  /\ (lnet.LNet t1 = lnet.LNet t2 <-> d1 = d2).
Proof.
  unfold lnet.newTcpNid.
  destruct (net_ParseIP nw a1) as [ip1|]; [|discriminate].
  destruct (net_ParseIP nw a2) as [ip2|]; [|discriminate].
  intros [= <-] [= <-]. repeat split; try discriminate.
  - intros H. apply lnet_facts.Itoa_inj. unfold lnet.LNet, lnet.Driver in H. now injection H.
  - intros ->. reflexivity.
Qed.

Lemma newTcpNid_networks_witness :
  exists t1 t2,
    lnet.newTcpNid worlds_nested.one_address "10.0.0.1" 0 = (Some t1, None)
    /\ lnet.newTcpNid worlds_nested.one_address "10.0.0.1" 1 = (Some t2, None)
    /\ lnet.LNet t1 = "tcp0" /\ lnet.LNet t2 = "tcp1"
    /\ ~ lnet.LNet t1 = lnet.LNet t2.
Proof.
  eexists _, _. split; [reflexivity|]. split; [reflexivity|].
  split; [reflexivity|]. split; [reflexivity|].
  intros H.
  apply (newTcpNid_networks worlds_nested.one_address "10.0.0.1" "10.0.0.1" 0 1 _ _
           eq_refl eq_refl) in H.
  discriminate H.
Defined.


(** ** The directories between a path and its root *)

Module between.
Import walker walker_facts.

Section Walk.
Variable w : World.

Lemma climbs_split dev n m p :
  m <= n -> climbs w dev n p = true ->
  climbs w dev (n - m) (ancestor m p) = true
  /\ ancestor (n - m) (ancestor m p) = ancestor n p.
Proof.
  revert n p. induction m as [|m IH]; intros n p Hm Hc.
  - rewrite Nat.sub_0_r. now split.
  - destruct n as [|n]; [lia|]. simpl in Hc. apply andb_true_iff in Hc as [_ Hc].
    simpl. apply IH; [lia | assumption].
Qed.

Lemma climbs_prefix dev n m p :
  m <= n -> climbs w dev n p = true -> climbs w dev m p = true.
Proof.
  revert n p. induction m as [|m IH]; intros n p Hm Hc; [reflexivity|].
  destruct n as [|n]; [lia|]. simpl in *. apply andb_true_iff in Hc as [Hi Hc].
  rewrite Hi. simpl. apply (IH n); [lia | assumption].
Qed.

(** The directories that the walk climbs through are stat-able, on the
    device of the path. *)
Lemma climbs_stat dev m p fi st :
  os_Lstat w p = Ok fi -> os.Sys fi = Some st -> syscall.Dev st = dev ->
  climbs w dev m p = true ->
  exists fi' st',
    os_Lstat w (ancestor m p) = Ok fi' /\ os.Sys fi' = Some st' /\ syscall.Dev st' = dev.
Proof.
  revert p fi st. induction m as [|m IH]; intros p fi st Hp Hst Hd Hc; [eauto|].
  simpl in Hc. apply andb_true_iff in Hc as [Hi Hc]. simpl.
  unfold inside in Hi.
  destruct (os_Lstat w (path.Dir p)) as [fi'|] eqn:Hfi; [|discriminate].
  destruct (os.Sys fi') as [st'|] eqn:Hst'; [|discriminate].
  apply andb_true_iff in Hi as [Hi _]. apply Z.eqb_eq in Hi.
  now apply (IH (path.Dir p) fi' st').
Qed.

End Walk.

End between.

(** X16: when [MountRoot] returns a root for a path, it returns the same
    root for every directory between the path and the root, and for the
    root itself at the first call: the root of a root is that root. *)
Theorem MountRoot_between (w : World) (depth : nat) (p : string) (root : fs.RootDir) :
  fs.MountRoot w depth p = Some (Ret (root, None)) ->
  exists n,
    root = walker.ancestor n p
    /\ (forall m, m <= n ->
          fs.MountRoot w (S (n - m)) (walker.ancestor m p) = Some (Ret (root, None)))
    /\ fs.MountRoot w 1 root = Some (Ret (root, None)).
Proof.
  intros Hrun.
  assert (Hall : exists n,
             root = walker.ancestor n p
             /\ forall m, m <= n ->
                  fs.MountRoot w (S (n - m)) (walker.ancestor m p) = Some (Ret (root, None))).
  { revert Hrun. unfold fs.MountRoot at 1.
    destruct (os_Lstat w p) as [fi|] eqn:Hp; [|discriminate].
    unfold fs.rootDevice at 1. destruct (os.Sys fi) as [st|] eqn:Hst; [|discriminate].
    simpl.
    destruct (fs.findRoot w depth (syscall.Dev st) p) as [[mnt|]|] eqn:Hf;
      [|discriminate|discriminate].
    simpl. destruct (String.eqb_spec mnt "") as [|Hmnt]; [discriminate|].
    intros [= ->].
    destruct (walker_facts.findRoot_root w _ _ _ _ Hf Hmnt) as (n & _ & Hm & ->).
    exists n. split; [reflexivity|]. intros m Hle.
    unfold walker.on_mount in Hm. apply andb_true_iff in Hm as [Hm Hd].
    apply andb_true_iff in Hm as [Hc Hb].
    destruct (between.climbs_split w _ n m p Hle Hc) as [Hc' Ha].
    destruct (between.climbs_stat w _ m p fi st Hp Hst eq_refl
                (between.climbs_prefix w _ n m p Hle Hc)) as (fi' & st' & Hp' & Hst' & Hdev).
    replace (S (n - m)) with ((n - m) + 1) by lia.
    unfold fs.MountRoot. rewrite Hp'. unfold fs.rootDevice. rewrite Hst', Hdev.
    unfold walk_lift, walk_bind at 1.
    rewrite walker_facts.on_mount_findRoot.
    - rewrite Ha. simpl.
      destruct (String.eqb_spec (walker.ancestor n p) "") as [E|_]; [congruence | reflexivity].
    - unfold walker.on_mount. now rewrite Hc', Ha, Hb, Hd. }
  destruct Hall as (n & -> & Hall). exists n. split; [reflexivity|]. split; [exact Hall|].
  specialize (Hall n (Nat.le_refl n)). now rewrite Nat.sub_diag in Hall.
Qed.

Lemma MountRoot_between_witness :
  fs.MountRoot worlds.lustre 3 "/mnt/fs/a/b" = Some (Ret ("/mnt/fs", None))
  /\ fs.MountRoot worlds.lustre 1 "/mnt/fs" = Some (Ret ("/mnt/fs", None)).
Proof.
  split; [reflexivity|].
  destruct (MountRoot_between worlds.lustre 3 "/mnt/fs/a/b" "/mnt/fs" eq_refl)
    as (n & _ & _ & H).
  exact H.
Defined.
